(** * Nachos 4.0 scheduler (threads/scheduler.cc) and memory manager
      directory (userprog/addrspace.h): a shallow embedding.

    Thread objects live in a store indexed by their address; the ready list
    and the sleeping list hold addresses, exactly as the C++ code holds
    [Thread *].  A failed [ASSERT] aborts the kernel: every routine that can
    reach one returns a [result]. *)

From stdpp Require Import base option list sorting gmap strings.
From Stdlib Require Import ZArith Lia.

Local Open Scope Z_scope.

(** ** Outcome of a kernel routine *)

Inductive result (A : Type) : Type :=
  | Ok (a : A)          (* the routine returned [a] *)
  | AssertFailed        (* an ASSERT did not hold: the kernel aborts *)
  | OutOfFuel.          (* the model's loop bound was too small *)
Arguments Ok {A} a.
Arguments AssertFailed {A}.
Arguments OutOfFuel {A}.

Definition rbind {A B} (m : result A) (f : A -> result B) : result B :=
  match m with
  | Ok a => f a
  | AssertFailed => AssertFailed
  | OutOfFuel => OutOfFuel
  end.

Notation "'let*' x := m 'in' k" := (rbind m (fun x => k))
  (at level 10, x name, m at level 100, k at level 200).

(** [ASSERT(b)] *)
Definition ASSERT (b : bool) : result unit :=
  if b then Ok tt else AssertFailed.

(** ** Machine integers *)

(** The tick [current], the wake ticks and the argument [val] of
    [FallAsleep] are C++ [int]s of 32 bits ([val] is declared [int]; the
    header that declares [current] and [thread_clk] is not part of the
    sources).  A sum that leaves the range wraps around in two's
    complement, as it does in the compiled code. *)
Definition INT_MIN : Z := -2147483648.
Definition INT_MAX : Z := 2147483647.

Definition int_wrap (z : Z) : Z := (z - INT_MIN) mod 2 ^ 32 + INT_MIN.

(** [a + b] on [int] *)
Definition int_add (a b : Z) : Z := int_wrap (a + b).

(** ** Threads *)

(** A [Thread *]: the address of a thread object; [NULL] is [None] of
    [option tid]. *)
Abbreviation tid := nat.

Inductive ThreadStatus := RUNNING | READY | BLOCKED.

Inductive IntStatus := IntOff | IntOn.

Inductive SchedulerType := FCFS | SJF | Priority.

#[global] Instance ThreadStatus_eq_dec : EqDecision ThreadStatus.
Proof. solve_decision. Defined.
#[global] Instance IntStatus_eq_dec : EqDecision IntStatus.
Proof. solve_decision. Defined.
#[global] Instance SchedulerType_eq_dec : EqDecision SchedulerType.
Proof. solve_decision. Defined.

(** Modelled from the spec: class Thread (threads/thread.h is not part of the
    sources).  The fields are the ones the scheduler reads or writes: name,
    run status, remaining burst, priority, and whether the stack fencepost
    was overwritten (what [CheckOverflow] asserts). *)
Record Thread := mkThread {
  name : string;
  status : ThreadStatus;
  burstTime : Z;
  priority : Z;
  stackOverflowed : bool
}.

Definition Thread_setStatus (st : ThreadStatus) (t : Thread) : Thread :=
  mkThread (name t) st (burstTime t) (priority t) (stackOverflowed t).

(** The thread store: which thread object lives at which address. *)
Abbreviation Threads := (gmap tid Thread).

(** [t->getBurstTime()] and [t->getPriority()].  Dereferencing an address
    with no thread object is undefined in C++; the model reads 0 there. *)
Definition getBurstTime (ths : Threads) (t : tid) : Z :=
  from_option burstTime 0 (ths !! t).

Definition getPriority (ths : Threads) (t : tid) : Z :=
  from_option priority 0 (ths !! t).

Definition getStatus (ths : Threads) (t : tid) : option ThreadStatus :=
  status <$> ths !! t.

(** [t->setStatus(st)] *)
Definition setStatus (t : tid) (st : ThreadStatus) (ths : Threads) : Threads :=
  alter (Thread_setStatus st) t ths.

(** ** The comparators of scheduler.cc *)

Definition SJFCompare (ths : Threads) (a b : tid) : Z :=
  if getBurstTime ths a =? getBurstTime ths b then 0
  else if getBurstTime ths a >? getBurstTime ths b then 1 else -1.

Definition PriorityCompare (ths : Threads) (a b : tid) : Z :=
  if getPriority ths a =? getPriority ths b then 0
  else if getPriority ths a >? getPriority ths b then 1 else -1.

(** ** The ready list *)

(** Modelled from the spec: List<T> and SortedList<T> (lib/list.h is not part
    of the sources).  [RemoveFront] removes and returns the head, [GetFront]
    returns the head without removing it ([NULL] when there is none), and
    [Append] on a sorted list inserts in ascending comparator order, after
    the items that compare equal (ties keep insertion order). *)
Module ListH.

Definition IsEmpty {T} (l : list T) : bool :=
  match l with [] => true | _ :: _ => false end.

Definition GetFront {T} (l : list T) : option T := head l.

Definition RemoveFront {T} (l : list T) : option (T * list T) :=
  match l with [] => None | x :: l' => Some (x, l') end.

Definition Append {T} (x : T) (l : list T) : list T := l ++ [x].

Fixpoint Insert {T} (compare : T -> T -> Z) (x : T) (l : list T) : list T :=
  match l with
  | [] => [x]
  | y :: l' => if compare x y <? 0 then x :: y :: l'
               else y :: Insert compare x l'
  end.

End ListH.

(** ** Scheduler and kernel state *)

(** A sleeping-list entry, [thread_clk]: the thread and its wake tick. *)
Abbreviation thread_clk := (tid * Z)%type.

(** The fields of [Scheduler] together with the kernel state the scheduler
    reads and writes ([kernel->currentThread], the interrupt level and the
    thread objects). *)
Record Scheduler := mkScheduler {
  schedulerType : SchedulerType;
  readyList : list tid;
  toBeDestroyed : option tid;
  sleepingList : list thread_clk;
  current : Z;
  currentThread : tid;
  level : IntStatus;
  threads : Threads
}.

Definition set_readyList (l : list tid) (s : Scheduler) : Scheduler :=
  mkScheduler (schedulerType s) l (toBeDestroyed s) (sleepingList s)
              (current s) (currentThread s) (level s) (threads s).

Definition set_toBeDestroyed (d : option tid) (s : Scheduler) : Scheduler :=
  mkScheduler (schedulerType s) (readyList s) d (sleepingList s)
              (current s) (currentThread s) (level s) (threads s).

Definition set_sleepingList (l : list thread_clk) (s : Scheduler) : Scheduler :=
  mkScheduler (schedulerType s) (readyList s) (toBeDestroyed s) l
              (current s) (currentThread s) (level s) (threads s).

Definition set_current (c : Z) (s : Scheduler) : Scheduler :=
  mkScheduler (schedulerType s) (readyList s) (toBeDestroyed s) (sleepingList s)
              c (currentThread s) (level s) (threads s).

Definition set_currentThread (t : tid) (s : Scheduler) : Scheduler :=
  mkScheduler (schedulerType s) (readyList s) (toBeDestroyed s) (sleepingList s)
              (current s) t (level s) (threads s).

Definition set_threads (ths : Threads) (s : Scheduler) : Scheduler :=
  mkScheduler (schedulerType s) (readyList s) (toBeDestroyed s) (sleepingList s)
              (current s) (currentThread s) (level s) ths.

Definition IntOff_b (s : Scheduler) : bool := bool_decide (level s = IntOff).

(** [Scheduler::Scheduler(type)]: an empty ready list of the policy's kind,
    tick 0, nothing to destroy.  The kernel state is passed in. *)
Definition Scheduler_new (type : SchedulerType) (cur : tid) (lv : IntStatus)
    (ths : Threads) : Scheduler :=
  mkScheduler type [] None [] 0 cur lv ths.

(** [readyList->Append(thread)]: the constructor made [readyList] a plain
    [List] for FCFS and a [SortedList] with the policy's comparator
    otherwise, whose [Append] is the sorted insertion. *)
Definition readyList_Append (s : Scheduler) (t : tid) : list tid :=
  match schedulerType s with
  | FCFS => ListH.Append t (readyList s)
  | SJF => ListH.Insert (SJFCompare (threads s)) t (readyList s)
  | Priority => ListH.Insert (PriorityCompare (threads s)) t (readyList s)
  end.

(** The state change of [ReadyToRun] once its ASSERT has passed: the status
    is set first, then the thread is put on the list. *)
Definition markReady (t : tid) (s : Scheduler) : Scheduler :=
  let s1 := set_threads (setStatus t READY (threads s)) s in
  set_readyList (readyList_Append s1 t) s1.

(** [Scheduler::ReadyToRun] *)
Definition ReadyToRun (s : Scheduler) (thread : tid) : result Scheduler :=
  let* _ := ASSERT (IntOff_b s) in
  Ok (markReady thread s).

(** [Scheduler::FindNextToRun] *)
Definition FindNextToRun (s : Scheduler) : result (option tid * Scheduler) :=
  let* _ := ASSERT (IntOff_b s) in
  if ListH.IsEmpty (readyList s) then Ok (None, s)
  else match ListH.RemoveFront (readyList s) with
       | Some (t, l') => Ok (Some t, set_readyList l' s)
       | None => Ok (None, s)
       end.

(** ** Dispatch *)

(** Modelled from the spec: [Thread::CheckOverflow] (threads/thread.cc is not
    part of the sources): the outgoing thread's stack is checked, and an
    overwritten fencepost is a failed assertion. *)
Definition CheckOverflow (s : Scheduler) (t : tid) : result unit :=
  ASSERT (negb (from_option stackOverflowed false (threads s !! t))).

(** [Scheduler::CheckToBeDestroyed]: [delete toBeDestroyed] removes the
    thread object from the store. *)
Definition CheckToBeDestroyed (s : Scheduler) : Scheduler :=
  match toBeDestroyed s with
  | Some t => set_toBeDestroyed None (set_threads (delete t (threads s)) s)
  | None => s
  end.

(** [Scheduler::Run] up to the call of [SWITCH].  The USER_PROGRAM blocks
    save and restore machine registers only and are left out. *)
Definition Run_before_SWITCH (s : Scheduler) (nextThread : tid)
    (finishing : bool) : result Scheduler :=
  let oldThread := currentThread s in
  let* _ := ASSERT (IntOff_b s) in
  let* s1 := (if finishing
              then let* _ := ASSERT (bool_decide (toBeDestroyed s = None)) in
                   Ok (set_toBeDestroyed (Some oldThread) s)
              else Ok s) in
  let* _ := CheckOverflow s1 oldThread in
  let s2 := set_currentThread nextThread s1 in
  Ok (set_threads (setStatus nextThread RUNNING (threads s2)) s2).

(** [Scheduler::Run] from the return of [SWITCH] on: "we're back, running
    oldThread". *)
Definition Run_after_SWITCH (s : Scheduler) : result Scheduler :=
  let* _ := ASSERT (IntOff_b s) in
  Ok (CheckToBeDestroyed s).

Section Dispatch.

(** [SWITCH(oldThread, nextThread)]: the machine-dependent routine of
    switch.s.  From the old thread's point of view it returns when that
    thread is dispatched again; what the other threads did to the
    scheduler in between is this function. *)
Variable SWITCH : tid -> tid -> Scheduler -> result Scheduler.

Definition Run (s : Scheduler) (nextThread : tid) (finishing : bool)
    : result Scheduler :=
  let oldThread := currentThread s in
  let* s1 := Run_before_SWITCH s nextThread finishing in
  let* s2 := SWITCH oldThread nextThread s1 in
  Run_after_SWITCH s2.

End Dispatch.

(** ** Sleeping and waking *)

(** Modelled from the spec: [Thread::Sleep] (threads/thread.cc is not part of
    the sources), as far as the spec describes it under [FallAsleep]:
    interrupts must be disabled, the thread's status becomes the blocked
    one, and nothing is dispatched. *)
Definition Thread_Sleep (s : Scheduler) (t : tid) (finishing : bool)
    : result Scheduler :=
  let* _ := ASSERT (IntOff_b s) in
  Ok (set_threads (setStatus t BLOCKED (threads s)) s).

(** [Scheduler::FallAsleep]: the wake tick is the [int] sum
    [current + val]. *)
Definition FallAsleep (s : Scheduler) (t : tid) (val : Z) : result Scheduler :=
  let s1 := set_sleepingList
              (sleepingList s ++ [(t, int_add (current s) val)]) s in
  Thread_Sleep s1 t false.

(** The [for] loop of [Scheduler::WakeUp], with its index [i] and flag
    [woken]; [sleepingList.erase(begin() + i)] is [delete i]. *)
Fixpoint WakeUp_loop (fuel : nat) (i : nat) (woken : bool) (s : Scheduler)
    : result (bool * Scheduler) :=
  match sleepingList s !! i with
  | None => Ok (woken, s)
  | Some it =>
      match fuel with
      | O => OutOfFuel
      | S fuel' =>
          if it.2 <? current s then
            let* s1 := ReadyToRun s it.1 in
            WakeUp_loop fuel' i true
              (set_sleepingList (delete i (sleepingList s1)) s1)
          else WakeUp_loop fuel' (S i) woken s
      end
  end.

(** [Scheduler::WakeUp].  Every iteration erases an entry or advances [i],
    so the length of the list bounds the number of iterations. *)
Definition WakeUp (s : Scheduler) : result (bool * Scheduler) :=
  let s1 := set_current (int_add (current s) 1) s in
  WakeUp_loop (length (sleepingList s1)) 0 false s1.

(** [Scheduler::needYield] *)
Definition needYield (s : Scheduler) : bool :=
  let now := currentThread s in
  match ListH.GetFront (readyList s) with
  | None => false
  | Some next =>
      match schedulerType s with
      | FCFS => false
      | SJF => SJFCompare (threads s) now next >? 0
      | Priority => PriorityCompare (threads s) now next >? 0
      end
  end.

(** ** The threads of the self test *)

(** The tables of [Scheduler::SelfTest]: priorities and bursts of the four
    threads per test case; any other test case ends in ASSERTNOTREACHED. *)
Definition SelfTest_tables (testcase : Z) : result (list Z * list Z) :=
  match testcase with
  | 0 => Ok ([5; 1; 3; 2], [3; 9; 7; 3])
  | 1 => Ok ([5; 1; 3; 2], [1; 9; 2; 3])
  | 2 => Ok ([10; 1; 2; 3], [50; 10; 5; 10])
  | _ => AssertFailed
  end.

Definition SelfTest_names : list string := ["A"; "B"; "C"; "D"].

(** The thread objects that the loop of [SelfTest] creates, in the order of
    creation, here at the addresses 1 to 4, added to the store [ths]. *)
Definition SelfTest_threads (testcase : Z) (ths : Threads) : result Threads :=
  let* tbl := SelfTest_tables testcase in
  Ok (foldl (fun m p => <[p.1 := p.2]> m) ths
        (zip (seq 1 4)
             (zip_with (fun n pb => mkThread n READY pb.2 pb.1 false)
                       SelfTest_names (zip tbl.1 tbl.2)))).

(** ** Concrete states used as examples *)

(** The main thread, at address 0. *)
Definition main_thread : Thread := mkThread "main" RUNNING 0 0 false.

(** The main thread and the threads of test case 0. *)
Definition demo_threads : Threads :=
  list_to_map [(0%nat, main_thread);
               (1%nat, mkThread "A" READY 3 5 false);
               (2%nat, mkThread "B" READY 9 1 false);
               (3%nat, mkThread "C" READY 7 3 false);
               (4%nat, mkThread "D" READY 3 2 false)].

(** The main thread is running, the threads [ready] are on the ready list,
    nobody sleeps, interrupts are off. *)
Definition demo_state (ty : SchedulerType) (ready : list tid) : Scheduler :=
  mkScheduler ty ready None [] 0 0%nat IntOff demo_threads.

(** ** Vocabulary for the sleep and wake properties *)

(** An entry has expired at tick [now] when its wake tick is below [now]:
    the test [it.second < current] of [WakeUp]. *)
Definition Expired (now : Z) (e : thread_clk) : Prop := e.2 < now.

#[global] Instance Expired_dec (now : Z) (e : thread_clk) :
  Decision (Expired now e).
Proof. unfold Expired. apply _. Defined.

(** [ReadyToRun] called on each thread of [ts], first to last. *)
Fixpoint ReadyToRun_all (s : Scheduler) (ts : list tid) : result Scheduler :=
  match ts with
  | [] => Ok s
  | t :: ts' => let* s1 := ReadyToRun s t in ReadyToRun_all s1 ts'
  end.

(** The state changes of those calls. *)
Definition markReady_all (ts : list tid) (s : Scheduler) : Scheduler :=
  foldl (fun s t => markReady t s) s ts.

(** [n] calls of [WakeUp] in a row. *)
Fixpoint WakeUp_n (n : nat) (s : Scheduler) : result Scheduler :=
  match n with
  | O => Ok s
  | S n' => let* r := WakeUp s in WakeUp_n n' r.2
  end.

(** Starting from [s], the [n]-th call of [WakeUp] (counting from 1) is the
    one that puts [t] on the ready list: [t] is not there before that call
    and is there after it. *)
Definition moved_on_call (s : Scheduler) (t : tid) (n : nat) : Prop :=
  match n with
  | O => False
  | S k => exists sb r, WakeUp_n k s = Ok sb /\ WakeUp sb = Ok r
                        /\ (t ∉ readyList sb) /\ (t ∈ readyList r.2)
  end.

(** Three sleepers, two of them due at the first tick. *)
Definition wake_demo : Scheduler :=
  mkScheduler FCFS [4%nat] None [(1%nat, 0); (2%nat, 5); (3%nat, 0)] 0 0%nat
              IntOff demo_threads.

(** [FallAsleep] called for each request (thread, duration), first to last,
    with no tick in between. *)
Fixpoint FallAsleep_all (s : Scheduler) (reqs : list (tid * Z))
    : result Scheduler :=
  match reqs with
  | [] => Ok s
  | r :: reqs' => let* s1 := FallAsleep s r.1 r.2 in FallAsleep_all s1 reqs'
  end.

(** ** Sequences of scheduler calls *)

Inductive sched_op :=
  | MarkReady (t : tid)     (* ReadyToRun(t) *)
  | SelectNext.             (* FindNextToRun() *)

(** Run the calls one after the other; the first component collects the
    threads that the [FindNextToRun] calls returned, in order (a NULL result
    adds nothing). *)
Fixpoint run_ops (s : Scheduler) (ops : list sched_op)
    : result (list tid * Scheduler) :=
  match ops with
  | [] => Ok ([], s)
  | MarkReady t :: ops' =>
      let* s1 := ReadyToRun s t in run_ops s1 ops'
  | SelectNext :: ops' =>
      let* r := FindNextToRun s in
      let* r' := run_ops r.2 ops' in
      Ok (option_list r.1 ++ r'.1, r'.2)
  end.

(** The threads passed to [ReadyToRun] by a sequence of calls, in order. *)
Fixpoint marked (ops : list sched_op) : list tid :=
  match ops with
  | [] => []
  | MarkReady t :: ops' => t :: marked ops'
  | SelectNext :: ops' => marked ops'
  end.

(** Mark the threads [ts] ready in turn, then take one thread per call until
    as many were taken. *)
Definition mark_then_drain (ts : list tid) : list sched_op :=
  (MarkReady <$> ts) ++ replicate (length ts) SelectNext.

(** Ascending order of keys, the order a sorted ready list is kept in. *)
Definition key_le {T} (key : T -> Z) (a b : T) : Prop := key a <= key b.

(** Sorted insertion of a batch, first to last. *)
Definition Insert_all {T} (compare : T -> T -> Z) (l ts : list T) : list T :=
  foldl (fun l t => ListH.Insert compare t l) l ts.

(** ** The memory manager's directories (userprog/addrspace.h) *)

Module Memory.

(** A [TranslationEntry *]: the address of a page table. *)
Abbreviation ptid := nat.

(** class FrameInfoEntry *)
Record FrameInfoEntry := mkFrameInfoEntry {
  valid : bool;          (* if being used *)
  lock : bool;
  pageTable : ptid;      (* which process is using this page *)
  vpn : Z;               (* which virtual page of the process is stored *)
  count : Z
}.

(** The data members of class MemoryManager. *)
Record MemoryManager := mkMemoryManager {
  frameTable : list FrameInfoEntry;
  swapTable : list FrameInfoEntry;
  MemoryManager_count : Z
}.

(** An entry in use for page [v] of page table [pt]. *)
Definition owned_by (pt : ptid) (v : Z) (e : FrameInfoEntry) : Prop :=
  valid e = true /\ pageTable e = pt /\ vpn e = v.

#[global] Instance owned_by_dec pt v e : Decision (owned_by pt v e).
Proof. unfold owned_by. apply _. Defined.

(** An entry in use for some page of page table [pt]. *)
Definition refers_to (pt : ptid) (e : FrameInfoEntry) : Prop :=
  valid e = true /\ pageTable e = pt.

#[global] Instance refers_to_dec pt e : Decision (refers_to pt e).
Proof. unfold refers_to. apply _. Defined.

(** Freeing a directory entry: it is no longer in use. *)
Definition free_entry (e : FrameInfoEntry) : FrameInfoEntry :=
  mkFrameInfoEntry false (lock e) (pageTable e) (vpn e) (count e).

(** Modelled from the spec: the release of one virtual page in one
    directory (the body of [MemoryManager::ReleaseAll]; addrspace.cc is not
    part of the sources): the page's entry, if there is one in use, is
    freed; a page with no entry is skipped. *)
Definition release_page (pt : ptid) (v : Z) (tbl : list FrameInfoEntry)
    : list FrameInfoEntry :=
  (fun e => if decide (owned_by pt v e) then free_entry e else e) <$> tbl.

(** Modelled from the spec: [MemoryManager::ReleaseAll(pageTable, num)]:
    for every virtual page 0 .. num-1 of the page table, free its frame
    directory entry if it is resident and its swap directory entry if it
    is swapped out. *)
Definition release_step (pt : ptid) (mm : MemoryManager) (v : Z)
    : MemoryManager :=
  mkMemoryManager (release_page pt v (frameTable mm))
                  (release_page pt v (swapTable mm))
                  (MemoryManager_count mm).

Definition ReleaseAll (mm : MemoryManager) (pt : ptid) (num : Z)
    : MemoryManager :=
  foldl (release_step pt) mm (seqZ 0 num).

(** What the release of the pages 0 .. num-1 of [pt] comes to for one
    entry: freed if it is in use for one of these pages, else unchanged. *)
Definition released (pt : ptid) (num : Z) (e : FrameInfoEntry)
    : FrameInfoEntry :=
  if decide (refers_to pt e /\ vpn e ∈ seqZ 0 num) then free_entry e else e.

(** Modelled from the spec: what [AcquirePage(pageTable, vpn)] looks up in
    a directory: the slot in use for that page, if any. *)
Definition find_entry (tbl : list FrameInfoEntry) (pt : ptid) (v : Z)
    : option (nat * FrameInfoEntry) :=
  list_find (owned_by pt v) tbl.

Definition demo_mm : MemoryManager :=
  mkMemoryManager
    [mkFrameInfoEntry true false 7%nat 0 1;
     mkFrameInfoEntry true false 8%nat 1 0;
     mkFrameInfoEntry true true 7%nat 2 3]
    [mkFrameInfoEntry true false 7%nat 1 0;
     mkFrameInfoEntry false false 7%nat 5 0]
    0.

End Memory.

(** ** Proof helpers *)

(** Case analysis on the tests of a three-way comparator. *)
Ltac compare_cases :=
  repeat match goal with
         | |- context [?x =? ?y] => destruct (Z.eqb_spec x y)
         | |- context [?x >? ?y] => destruct (Z.gtb_spec x y)
         end;
  lia.

(** ** Further vocabulary: the thread body and the sleeping list *)

Definition Thread_setBurstTime (b : Z) (t : Thread) : Thread :=
  mkThread (name t) (status t) b (priority t) (stackOverflowed t).

(** [t->setBurstTime(b)] *)
Definition setBurstTime (t : tid) (b : Z) (ths : Threads) : Threads :=
  alter (Thread_setBurstTime b) t ths.

Section ThreadBody.

(** [kernel->interrupt->OneTick()]: the interrupt simulation is not part of
    the sources; from the calling thread's point of view it returns the
    scheduler as the clock handlers and the other threads left it. *)
Variable OneTick : Scheduler -> result Scheduler.

(** The [while] loop of [threadBody] for the thread object [thread]. *)
Fixpoint threadBody_loop (fuel : nat) (thread : tid) (s : Scheduler)
    : result Scheduler :=
  if getBurstTime (threads s) thread >? 0 then
    match fuel with
    | O => OutOfFuel
    | S fuel' =>
        let s1 := set_threads
                    (setBurstTime thread (getBurstTime (threads s) thread - 1)
                       (threads s)) s in
        let* s2 := OneTick s1 in
        threadBody_loop fuel' thread s2
    end
  else Ok s.

(** [threadBody]: [thread] is read from [kernel->currentThread] once, before
    the loop. *)
Definition threadBody (fuel : nat) (s : Scheduler) : result Scheduler :=
  threadBody_loop fuel (currentThread s) s.

End ThreadBody.

(** A tick that only advances the clock. *)
Definition tick_only (s : Scheduler) : result Scheduler :=
  Ok (set_current (int_add (current s) 1) s).

(** No sleeper is overdue: every wake tick is at least the current tick. *)
Definition no_overdue (s : Scheduler) : Prop :=
  Forall (fun e : thread_clk => current s <= e.2) (sleepingList s).

(** The key a policy sorts its ready list by. *)
Definition policy_key (ty : SchedulerType) (ths : Threads) (t : tid) : Z :=
  match ty with
  | FCFS => 0
  | SJF => getBurstTime ths t
  | Priority => getPriority ths t
  end.

(** The comparator of a policy's ready list; the plain list of FCFS behaves
    as a sorted list whose comparator never answers "before". *)
Definition policy_compare (ty : SchedulerType) (ths : Threads) (a b : tid) : Z :=
  match ty with
  | FCFS => 0
  | SJF => SJFCompare ths a b
  | Priority => PriorityCompare ths a b
  end.

(** * Properties *)

(** ** Basic facts about the state operations *)

Lemma IntOff_b_true (s : Scheduler) : level s = IntOff -> IntOff_b s = true.
Proof. intros H. unfold IntOff_b. by rewrite bool_decide_eq_true. Qed.

Lemma IntOff_b_false (s : Scheduler) : level s <> IntOff -> IntOff_b s = false.
Proof. intros H. unfold IntOff_b. by rewrite bool_decide_eq_false. Qed.

Lemma set_readyList_id (s : Scheduler) : set_readyList (readyList s) s = s.
Proof. by destruct s. Qed.

Lemma set_sleepingList_id (s : Scheduler) : set_sleepingList (sleepingList s) s = s.
Proof. by destruct s. Qed.

Lemma ReadyToRun_IntOff (s : Scheduler) (t : tid) :
  level s = IntOff -> ReadyToRun s t = Ok (markReady t s).
Proof. intros H. unfold ReadyToRun. by rewrite IntOff_b_true. Qed.

(** The comparators are antisymmetric: [a] sorts after [b] exactly when [b]
    sorts before [a]. *)
Lemma SJFCompare_flip (ths : Threads) (a b : tid) :
  SJFCompare ths a b > 0 <-> SJFCompare ths b a < 0.
Proof.
  unfold SJFCompare. compare_cases.
Qed.

Lemma PriorityCompare_flip (ths : Threads) (a b : tid) :
  PriorityCompare ths a b > 0 <-> PriorityCompare ths b a < 0.
Proof.
  unfold PriorityCompare. compare_cases.
Qed.

Lemma PriorityCompare_lt (ths : Threads) (a b : tid) :
  PriorityCompare ths a b < 0 <-> getPriority ths a < getPriority ths b.
Proof.
  unfold PriorityCompare. compare_cases.
Qed.

Lemma SJFCompare_lt (ths : Threads) (a b : tid) :
  SJFCompare ths a b < 0 <-> getBurstTime ths a < getBurstTime ths b.
Proof.
  unfold SJFCompare. compare_cases.
Qed.

Lemma gtb_0_true (z : Z) : (z >? 0) = true <-> z > 0.
Proof. destruct (Z.gtb_spec z 0); split; (lia || congruence). Qed.

(** [int] arithmetic: a sum in the range of [int] is the sum itself, and
    every sum lands in the range. *)
Lemma int_wrap_in_range (z : Z) :
  INT_MIN <= z <= INT_MAX -> int_wrap z = z.
Proof.
  unfold int_wrap, INT_MIN, INT_MAX. intros Hz.
  rewrite Z.mod_small by lia. lia.
Qed.

Lemma int_add_in_range (a b : Z) :
  INT_MIN <= a + b <= INT_MAX -> int_add a b = a + b.
Proof. apply int_wrap_in_range. Qed.

Lemma int_wrap_bounds (z : Z) : INT_MIN <= int_wrap z <= INT_MAX.
Proof.
  unfold int_wrap, INT_MIN, INT_MAX.
  pose proof (Z.mod_pos_bound (z - -2147483648) (2 ^ 32)) as H. lia.
Qed.

(** ** FindNextToRun *)

(** C8: with interrupts off, [FindNextToRun] returns NULL on an empty ready
    list and leaves the scheduler as it is; otherwise it returns the head of
    the ready list and removes it; the running thread is not changed in
    either case. *)
Theorem FindNextToRun_head (s : Scheduler) :
  level s = IntOff ->
  exists s', FindNextToRun s = Ok (head (readyList s), s')
    /\ readyList s' = tail (readyList s)
    /\ currentThread s' = currentThread s
    /\ (readyList s = [] -> s' = s).
Proof.
  intros Hoff. unfold FindNextToRun. rewrite IntOff_b_true by done. simpl.
  destruct (readyList s) as [|t l] eqn:E; simpl.
  - exists s. by rewrite E.
  - exists (set_readyList l s). repeat split; try done.
Qed.

Lemma FindNextToRun_head_witness :
  exists s', FindNextToRun (demo_state FCFS [2%nat; 3%nat])
             = Ok (Some 2%nat, s')
    /\ readyList s' = [3%nat]
    /\ currentThread s' = 0%nat
    /\ (readyList (demo_state FCFS [2%nat; 3%nat]) = [] ->
        s' = demo_state FCFS [2%nat; 3%nat]).
Proof. apply (FindNextToRun_head (demo_state FCFS [2%nat; 3%nat])). reflexivity. Defined.

(** ** needYield *)

(** C2: [needYield] is false on an empty ready list, false under FCFS, and
    under SJF and Priority it is true exactly when the head of the ready
    list compares strictly before the running thread. *)
Theorem needYield_iff (s : Scheduler) :
  (readyList s = [] -> needYield s = false)
  /\ (schedulerType s = FCFS -> needYield s = false)
  /\ (forall next l, readyList s = next :: l ->
        (schedulerType s = SJF ->
           (needYield s = true
            <-> SJFCompare (threads s) next (currentThread s) < 0))
        /\ (schedulerType s = Priority ->
           (needYield s = true
            <-> PriorityCompare (threads s) next (currentThread s) < 0))).
Proof.
  unfold needYield. split; [|split].
  - by intros ->.
  - intros ->. by destruct (ListH.GetFront _).
  - intros next l ->. simpl. split; intros ->.
    + by rewrite gtb_0_true, SJFCompare_flip.
    + by rewrite gtb_0_true, PriorityCompare_flip.
Qed.

Lemma needYield_iff_witness :
  needYield (mkScheduler Priority [2%nat; 3%nat] None [] 0 1%nat IntOff
               demo_threads) = true
  /\ needYield (mkScheduler SJF [1%nat] None [] 0 4%nat IntOff
               demo_threads) = false.
Proof.
  split.
  - destruct (needYield_iff (mkScheduler Priority [2%nat; 3%nat] None [] 0
                               1%nat IntOff demo_threads))
      as (_ & _ & H).
    destruct (H 2%nat [3%nat] eq_refl) as [_ HP].
    apply (HP eq_refl). vm_compute. reflexivity.
  - destruct (needYield_iff (mkScheduler SJF [1%nat] None [] 0
                               4%nat IntOff demo_threads))
      as (_ & _ & H).
    destruct (H 1%nat [] eq_refl) as [HS _].
    apply not_true_is_false. intros E.
    apply (proj1 (HS eq_refl)) in E. vm_compute in E. discriminate E.
Defined.

(** ** FallAsleep *)

(** C5: with interrupts off, [FallAsleep s t val] returns; it appends the
    pair of [t] and the [int] sum [current + val] to the sleeping list (that
    is [current + val] itself whenever the sum is in the range of [int]),
    sets the status of [t] to BLOCKED, and leaves the ready list, the
    running thread, the tick and the destruction slot as they were: nothing
    is dispatched. *)
Theorem FallAsleep_effect (s : Scheduler) (t : tid) (val : Z) :
  level s = IntOff ->
  exists s', FallAsleep s t val = Ok s'
    /\ sleepingList s' = sleepingList s ++ [(t, int_add (current s) val)]
    /\ (INT_MIN <= current s + val <= INT_MAX ->
          sleepingList s' = sleepingList s ++ [(t, current s + val)])
    /\ threads s' = alter (Thread_setStatus BLOCKED) t (threads s)
    /\ (forall th, threads s !! t = Some th ->
          getStatus (threads s') t = Some BLOCKED)
    /\ readyList s' = readyList s
    /\ currentThread s' = currentThread s
    /\ current s' = current s
    /\ toBeDestroyed s' = toBeDestroyed s
    /\ level s' = level s.
Proof.
  intros Hoff. unfold FallAsleep, Thread_Sleep.
  rewrite IntOff_b_true by done. simpl.
  eexists; split; [reflexivity|]. simpl.
  split; [done|]. split; [intros Hrange; by rewrite int_add_in_range|].
  repeat split.
  intros th Hth. unfold getStatus, setStatus.
  rewrite lookup_alter_eq, Hth. reflexivity.
Qed.

Lemma FallAsleep_effect_witness :
  exists s', FallAsleep (demo_state FCFS [2%nat]) 0%nat 5 = Ok s'
    /\ sleepingList s' = [(0%nat, 5)]
    /\ getStatus (threads s') 0%nat = Some BLOCKED
    /\ readyList s' = [2%nat]
    /\ currentThread s' = 0%nat.
Proof.
  destruct (FallAsleep_effect (demo_state FCFS [2%nat]) 0%nat 5 eq_refl)
    as (s' & HF & _ & Hs & _ & Hst & Hr & Hc & _).
  exists s'. split; [exact HF|]. split.
  - apply Hs. unfold INT_MIN, INT_MAX. simpl. lia.
  - split; [apply (Hst main_thread); reflexivity|]. split; [exact Hr|exact Hc].
Defined.

(** ** Run and the destruction slot *)

Lemma Run_after_SWITCH_IntOff (s : Scheduler) :
  level s = IntOff -> Run_after_SWITCH s = Ok (CheckToBeDestroyed s).
Proof. intros H. unfold Run_after_SWITCH. by rewrite IntOff_b_true. Qed.

Lemma CheckToBeDestroyed_empty (s : Scheduler) :
  toBeDestroyed (CheckToBeDestroyed s) = None.
Proof. unfold CheckToBeDestroyed. by destruct (toBeDestroyed s) eqn:E. Qed.

Lemma CheckToBeDestroyed_deleted (s : Scheduler) (t : tid) :
  toBeDestroyed s = Some t ->
  threads (CheckToBeDestroyed s) = delete t (threads s).
Proof. intros E. unfold CheckToBeDestroyed. by rewrite E. Qed.

(** C3: [Run] with [finishing] set while the destruction slot is occupied is
    a failed assertion, whatever [SWITCH] does; a [Run] that passes its
    checks with [finishing] set found the slot empty and filled it with the
    outgoing thread; and when [SWITCH] returns with interrupts off, the rest
    of [Run] returns with the slot empty and the thread that was in it
    deleted. *)
Theorem Run_destruction_slot
    (SWITCH : tid -> tid -> Scheduler -> result Scheduler)
    (s : Scheduler) (nextThread : tid) :
  (toBeDestroyed s <> None -> Run SWITCH s nextThread true = AssertFailed)
  /\ (forall s1, Run_before_SWITCH s nextThread true = Ok s1 ->
        toBeDestroyed s = None /\ toBeDestroyed s1 = Some (currentThread s))
  /\ (forall finishing s1 s2,
        Run_before_SWITCH s nextThread finishing = Ok s1 ->
        SWITCH (currentThread s) nextThread s1 = Ok s2 ->
        level s2 = IntOff ->
        exists s', Run SWITCH s nextThread finishing = Ok s'
          /\ toBeDestroyed s' = None
          /\ (forall t, toBeDestroyed s2 = Some t ->
                threads s' = delete t (threads s2) /\ threads s' !! t = None)).
Proof.
  split; [|split].
  - intros Hocc. unfold Run, Run_before_SWITCH.
    destruct (IntOff_b s); [|done]. simpl.
    by rewrite bool_decide_eq_false_2.
  - intros s1. unfold Run_before_SWITCH.
    destruct (IntOff_b s); [|done]. simpl.
    destruct (decide (toBeDestroyed s = None)) as [E|E].
    + rewrite bool_decide_eq_true_2 by done. simpl.
      destruct (CheckOverflow _ _); [|done..]. simpl.
      intros [= <-]. done.
    + by rewrite bool_decide_eq_false_2.
  - intros finishing s1 s2 H1 H2 Hoff. unfold Run. rewrite H1. simpl.
    rewrite H2. simpl. rewrite Run_after_SWITCH_IntOff by done.
    eexists; split; [reflexivity|]. split.
    + apply CheckToBeDestroyed_empty.
    + intros t Ht. rewrite (CheckToBeDestroyed_deleted _ _ Ht).
      split; [done|]. apply lookup_delete_eq.
Qed.

Lemma Run_destruction_slot_witness :
  let SWITCH := fun (_ _ : tid) (s : Scheduler) => Ok s in
  let st := mkScheduler Priority [3%nat] (Some 4%nat) [] 0 1%nat IntOff
              demo_threads in
  Run SWITCH st 2%nat true = AssertFailed
  /\ exists s', Run SWITCH st 2%nat false = Ok s'
       /\ toBeDestroyed s' = None /\ threads s' !! 4%nat = None.
Proof.
  intros SWITCH st.
  destruct (Run_destruction_slot SWITCH st 2%nat) as (H1 & _ & H3).
  split.
  - apply H1. discriminate.
  - destruct (H3 false _ _ eq_refl eq_refl eq_refl) as (s' & Hr & Hd & Ht).
    exists s'. split; [exact Hr|]. split; [exact Hd|].
    apply (Ht 4%nat eq_refl).
Defined.

(** ** WakeUp *)

Lemma markReady_all_nil (s : Scheduler) : markReady_all [] s = s.
Proof. reflexivity. Qed.

Lemma markReady_all_cons (t : tid) (ts : list tid) (s : Scheduler) :
  markReady_all (t :: ts) s = markReady_all ts (markReady t s).
Proof. reflexivity. Qed.

(** What the batch of [ReadyToRun] calls leaves alone. *)
Lemma markReady_all_frame (ts : list tid) (s : Scheduler) :
  level (markReady_all ts s) = level s
  /\ current (markReady_all ts s) = current s
  /\ sleepingList (markReady_all ts s) = sleepingList s
  /\ currentThread (markReady_all ts s) = currentThread s
  /\ toBeDestroyed (markReady_all ts s) = toBeDestroyed s
  /\ schedulerType (markReady_all ts s) = schedulerType s.
Proof.
  revert s. induction ts as [|t ts IH]; intros s; [done|].
  rewrite markReady_all_cons. destruct (IH (markReady t s)) as (?&?&?&?&?&?).
  simpl in *. repeat split; congruence.
Qed.

Lemma markReady_set_sleepingList (l : list thread_clk) (t : tid) (s : Scheduler) :
  markReady t (set_sleepingList l s) = set_sleepingList l (markReady t s).
Proof. reflexivity. Qed.

Lemma markReady_all_set_sleepingList (l : list thread_clk) (ts : list tid)
    (s : Scheduler) :
  markReady_all ts (set_sleepingList l s) = set_sleepingList l (markReady_all ts s).
Proof.
  revert s. induction ts as [|t ts IH]; intros s; [done|].
  by rewrite !markReady_all_cons, markReady_set_sleepingList, IH.
Qed.

Lemma ReadyToRun_all_IntOff (ts : list tid) (s : Scheduler) :
  level s = IntOff -> ReadyToRun_all s ts = Ok (markReady_all ts s).
Proof.
  revert s. induction ts as [|t ts IH]; intros s Hoff; [done|].
  simpl. rewrite ReadyToRun_IntOff by done. simpl. by apply IH.
Qed.

(** Erasing position [i] of a vector keeps what is before it and shifts what
    is after it. *)
Lemma take_erase {A} (l : list A) (i : nat) :
  (i < length l)%nat -> take i (delete i l) = take i l.
Proof.
  intros Hi. rewrite delete_take_drop. apply take_app_length'.
  rewrite length_take. lia.
Qed.

Lemma drop_erase {A} (l : list A) (i : nat) :
  (i < length l)%nat -> drop i (delete i l) = drop (S i) l.
Proof.
  intros Hi. rewrite delete_take_drop. apply drop_app_length'.
  rewrite length_take. lia.
Qed.

(** The loop of [WakeUp] started at index [i]: the entries before [i] stay,
    the expired ones from [i] on are handed to [ReadyToRun] in list order
    and erased, and the flag records whether there was one. *)
Lemma WakeUp_loop_result (fuel i : nat) (woken : bool) (s : Scheduler) :
  level s = IntOff ->
  (length (sleepingList s) - i <= fuel)%nat ->
  WakeUp_loop fuel i woken s =
    Ok (woken || bool_decide (Exists (Expired (current s)) (drop i (sleepingList s))),
        set_sleepingList
          (take i (sleepingList s)
             ++ filter (fun e => ~ Expired (current s) e) (drop i (sleepingList s)))
          (markReady_all
             (filter (Expired (current s)) (drop i (sleepingList s))).*1 s)).
Proof.
  revert i woken s.
  induction fuel as [|fuel IH]; intros i woken s Hoff Hlen.
  - assert (length (sleepingList s) <= i)%nat as Hi by lia.
    unfold WakeUp_loop. rewrite lookup_ge_None_2 by done.
    rewrite drop_ge, take_ge by done. simpl.
    rewrite orb_false_r, app_nil_r. by rewrite set_sleepingList_id.
  - simpl. destruct (sleepingList s !! i) as [it|] eqn:Hit.
    + rewrite (drop_S _ _ _ Hit).
      destruct (Z.ltb_spec it.2 (current s)) as [Hexp|Hexp].
      * rewrite ReadyToRun_IntOff by done. simpl.
        rewrite IH; [|done|simpl; rewrite length_delete by eauto;
                              apply lookup_lt_Some in Hit; lia].
        simpl. apply lookup_lt_Some in Hit.
        rewrite take_erase, drop_erase by done.
        rewrite (filter_cons_True (Expired (current s))) by done.
        rewrite (filter_cons_False (fun e => ~ Expired (current s) e))
          by (intros H; by apply H).
        rewrite fmap_cons, markReady_all_cons.
        rewrite markReady_all_set_sleepingList. simpl.
        f_equal. f_equal.
        rewrite bool_decide_eq_true_2 by (by constructor).
        by rewrite orb_true_r.
      * rewrite IH by (done || lia).
        rewrite (take_S_r _ _ _ Hit).
        rewrite (filter_cons_False (Expired (current s)))
          by (unfold Expired; lia).
        rewrite (filter_cons_True (fun e => ~ Expired (current s) e))
          by (unfold Expired; lia).
        rewrite <- app_assoc. simpl. f_equal. f_equal.
        f_equal. apply bool_decide_ext. rewrite Exists_cons.
        unfold Expired at 2. intuition lia.
    + apply lookup_ge_None_1 in Hit.
      rewrite drop_ge, take_ge by done. simpl.
      rewrite orb_false_r, app_nil_r. by rewrite set_sleepingList_id.
Qed.

Lemma WakeUp_result (s : Scheduler) :
  level s = IntOff ->
  WakeUp s =
    Ok (bool_decide (Exists (Expired (int_add (current s) 1)) (sleepingList s)),
        set_sleepingList
          (filter (fun e => ~ Expired (int_add (current s) 1) e) (sleepingList s))
          (markReady_all
             (filter (Expired (int_add (current s) 1)) (sleepingList s)).*1
             (set_current (int_add (current s) 1) s))).
Proof.
  intros Hoff. unfold WakeUp.
  rewrite WakeUp_loop_result by (done || simpl; lia). by rewrite drop_0.
Qed.

(** Membership in the ready list after [ReadyToRun]. *)
Lemma elem_of_Insert {T} (compare : T -> T -> Z) (x y : T) (l : list T) :
  y ∈ ListH.Insert compare x l <-> y = x \/ y ∈ l.
Proof.
  induction l as [|z l IH]; simpl.
  - rewrite list_elem_of_singleton, elem_of_nil. tauto.
  - destruct (compare x z <? 0).
    + by rewrite elem_of_cons.
    + rewrite !elem_of_cons, IH. tauto.
Qed.

Lemma elem_of_readyList_markReady (t t' : tid) (s : Scheduler) :
  t' ∈ readyList (markReady t s) <-> t' = t \/ t' ∈ readyList s.
Proof.
  unfold markReady, readyList_Append. simpl.
  destruct (schedulerType s); unfold ListH.Append;
    rewrite ?elem_of_Insert, ?elem_of_app, ?list_elem_of_singleton; tauto.
Qed.

Lemma elem_of_readyList_markReady_all (ts : list tid) (t' : tid) (s : Scheduler) :
  t' ∈ readyList (markReady_all ts s) <-> t' ∈ ts \/ t' ∈ readyList s.
Proof.
  revert s. induction ts as [|t ts IH]; intros s.
  - rewrite markReady_all_nil, elem_of_nil. tauto.
  - rewrite markReady_all_cons, IH, elem_of_readyList_markReady, elem_of_cons.
    tauto.
Qed.

(** One call of [WakeUp], by membership; the new tick is the [int]
    successor of the old one. *)
Lemma WakeUp_step (s : Scheduler) :
  level s = IntOff ->
  exists b s', WakeUp s = Ok (b, s')
    /\ level s' = IntOff
    /\ current s' = int_add (current s) 1
    /\ schedulerType s' = schedulerType s
    /\ (forall e, e ∈ sleepingList s'
                  <-> e ∈ sleepingList s /\ ~ e.2 < current s')
    /\ (forall t, t ∈ readyList s'
                  <-> t ∈ readyList s
                      \/ exists w, (t, w) ∈ sleepingList s /\ w < current s')
    /\ sleepingList s' `sublist_of` sleepingList s.
Proof.
  intros Hoff. rewrite WakeUp_result by done.
  eexists _, _. split; [reflexivity|]. simpl.
  destruct (markReady_all_frame
              (filter (Expired (int_add (current s) 1)) (sleepingList s)).*1
              (set_current (int_add (current s) 1) s))
    as (Hl & Hc & _ & _ & _ & Hty).
  simpl in *. rewrite Hc.
  split; [by rewrite Hl|]. split; [done|]. split; [done|]. split; [|split].
  - intros e. rewrite list_elem_of_filter. unfold Expired. tauto.
  - intros t. rewrite elem_of_readyList_markReady_all. simpl.
    rewrite list_elem_of_fmap. split.
    + intros [([t0 w] & -> & He)|H]; [|by left].
      apply list_elem_of_filter in He as [He Hin]. right. by exists w.
    + intros [H|(w & Hin & Hw)]; [by right|]. left.
      exists (t, w). split; [done|]. by apply list_elem_of_filter.
  - apply sublist_filter.
Qed.

(** ** WakeUp: one pass wakes every expired entry *)

(** C4: with interrupts off, a call of [WakeUp] returns; the tick is the
    [int] successor of the old tick, which is one more than before whenever
    the old tick is below [INT_MAX]; the sleeping list keeps exactly the
    entries whose wake tick is not below the new tick, so no expired entry
    is left; the expired threads were handed to [ReadyToRun] and are on
    the ready list; and the result is true exactly when some entry had
    expired. *)
Theorem WakeUp_single_pass (s : Scheduler) :
  level s = IntOff ->
  exists woken s', WakeUp s = Ok (woken, s')
    /\ current s' = int_add (current s) 1
    /\ (INT_MIN <= current s < INT_MAX -> current s' = current s + 1)
    /\ sleepingList s'
       = filter (fun e => ~ Expired (current s') e) (sleepingList s)
    /\ (forall e, e ∈ sleepingList s' -> ~ e.2 < current s')
    /\ (exists s0,
          ReadyToRun_all (set_current (current s') s)
            (filter (Expired (current s')) (sleepingList s)).*1 = Ok s0
          /\ s' = set_sleepingList (sleepingList s') s0)
    /\ (forall e, e ∈ sleepingList s -> e.2 < current s' -> e.1 ∈ readyList s')
    /\ (woken = true <-> exists e, e ∈ sleepingList s /\ e.2 < current s').
Proof.
  intros Hoff. rewrite WakeUp_result by done.
  eexists _, _. split; [reflexivity|].
  destruct (markReady_all_frame
              (filter (Expired (int_add (current s) 1)) (sleepingList s)).*1
              (set_current (int_add (current s) 1) s)) as (Hl & Hc & _).
  simpl in *. rewrite Hc. split; [done|].
  split; [intros Hrange; apply int_add_in_range; lia|]. repeat split.
  - intros e He. apply list_elem_of_filter in He as [He _]. exact He.
  - rewrite ReadyToRun_all_IntOff by done. eauto.
  - intros e Hin He. rewrite elem_of_readyList_markReady_all. left.
    apply list_elem_of_fmap. exists e. split; [done|].
    by apply list_elem_of_filter.
  - intros Hw. apply bool_decide_eq_true in Hw. by apply Exists_exists in Hw.
  - intros Hw. apply bool_decide_eq_true. by apply Exists_exists.
Qed.

Lemma WakeUp_single_pass_witness :
  exists woken s', WakeUp wake_demo = Ok (woken, s')
    /\ current s' = 1
    /\ sleepingList s' = [(2%nat, 5)]
    /\ (woken = true <-> exists e, e ∈ sleepingList wake_demo /\ e.2 < current s').
Proof.
  destruct (WakeUp_single_pass wake_demo eq_refl)
    as (woken & s' & HW & _ & Hc & Hs & _ & _ & _ & Hw).
  assert (current s' = 1) as Hc1.
  { apply Hc. unfold INT_MIN, INT_MAX. simpl. lia. }
  exists woken, s'. split; [exact HW|]. split; [exact Hc1|].
  split; [|exact Hw]. rewrite Hs, Hc1. reflexivity.
Defined.

(** At the top of the range the sums wrap: a wake tick computed at tick 1
    for the duration [INT_MAX] is [INT_MIN], and at tick [INT_MAX] a call
    of [WakeUp] takes the tick to [INT_MIN] and leaves a sleeper whose wake
    tick is [INT_MAX] asleep. *)
Example int_add_wraps :
  int_add 1 INT_MAX = INT_MIN /\ int_add INT_MAX 1 = INT_MIN.
Proof. split; reflexivity. Qed.

Example WakeUp_at_INT_MAX :
  WakeUp (mkScheduler FCFS [] None [(1%nat, INT_MAX)] INT_MAX 0%nat IntOff
            demo_threads)
  = Ok (false,
        mkScheduler FCFS [] None [(1%nat, INT_MAX)] INT_MIN 0%nat IntOff
          demo_threads).
Proof. vm_compute. reflexivity. Qed.

(** ** How many ticks a sleeper waits *)

Lemma WakeUp_n_S (n : nat) (s : Scheduler) :
  WakeUp_n (S n) s = let* r := WakeUp s in WakeUp_n n r.2.
Proof. reflexivity. Qed.

(** Any number of [WakeUp] calls returns with interrupts off; what is ready
    stays ready and what is left asleep is left in order. *)
Lemma WakeUp_n_returns (n : nat) (s : Scheduler) :
  level s = IntOff ->
  exists s', WakeUp_n n s = Ok s'
    /\ level s' = IntOff
    /\ schedulerType s' = schedulerType s
    /\ (forall t, t ∈ readyList s -> t ∈ readyList s')
    /\ sleepingList s' `sublist_of` sleepingList s.
Proof.
  revert s. induction n as [|n IH]; intros s Hoff.
  - by exists s.
  - rewrite WakeUp_n_S.
    destruct (WakeUp_step s Hoff)
      as (b & s1 & -> & Hoff1 & _ & Hty1 & _ & Hr1 & Hs1).
    simpl. destruct (IH s1 Hoff1) as (s' & -> & Hoff' & Hty' & Hr' & Hs').
    exists s'. split; [done|]. split; [done|]. split; [congruence|]. split.
    + intros t Ht. apply Hr', Hr1. by left.
    + by transitivity (sleepingList s1).
Qed.

(** [n] calls of [WakeUp] in a row that do not take the tick past
    [INT_MAX], by membership. *)
Lemma WakeUp_n_membership (n : nat) (s : Scheduler) :
  level s = IntOff ->
  INT_MIN <= current s -> current s + Z.of_nat n <= INT_MAX ->
  exists s', WakeUp_n n s = Ok s'
    /\ level s' = IntOff
    /\ current s' = current s + Z.of_nat n
    /\ (forall e, e ∈ sleepingList s'
          <-> e ∈ sleepingList s /\ (n = O \/ current s + Z.of_nat n <= e.2))
    /\ (forall t, t ∈ readyList s'
          <-> t ∈ readyList s
              \/ exists w, (t, w) ∈ sleepingList s
                           /\ w < current s + Z.of_nat n /\ n <> O).
Proof.
  revert s. induction n as [|n IH]; intros s Hoff Hlo Hhi.
  - exists s. simpl. repeat split; try (done || lia || tauto).
    + intros [H|(w & _ & _ & Hn)]; [exact H|contradiction].
  - rewrite WakeUp_n_S.
    destruct (WakeUp_step s Hoff)
      as (b & s1 & -> & Hoff1 & Hc1 & _ & Hs1 & Hr1 & _).
    rewrite int_add_in_range in Hc1 by lia.
    simpl. destruct (IH s1 Hoff1) as (s' & -> & Hoff' & Hc' & Hs' & Hr');
      [lia..|].
    exists s'. split; [done|]. split; [done|]. split; [lia|]. split.
    + intros e. rewrite Hs', Hs1, Hc1. split.
      * intros [[Hin Hn] [->|Hle]]; (split; [done|right; lia]).
      * intros [Hin [?|Hle]]; [done|].
        split; [split; [done|lia]|]. destruct n; [by left|right; lia].
    + intros t. rewrite Hr', Hr1. split.
      * intros [[H|(w & Hin & Hw)]|(w & Hin & Hw & Hn)].
        -- by left.
        -- right. exists w. split; [done|]. lia.
        -- right. exists w. apply Hs1 in Hin as [Hin _]. split; [done|]. lia.
      * intros [H|(w & Hin & Hw & _)]; [by left; left|].
        destruct (decide (w < current s1)) as [Hlt|Hge].
        -- left. right. by exists w.
        -- right. exists w. split; [apply Hs1; by split|].
           split; [lia|]. intros ->. lia.
Qed.

Lemma WakeUp_n_snoc (n : nat) (s : Scheduler) :
  WakeUp_n (S n) s
  = let* sb := WakeUp_n n s in let* r := WakeUp sb in Ok r.2.
Proof.
  revert s. induction n as [|n IH]; intros s.
  - simpl. by destruct (WakeUp s).
  - rewrite WakeUp_n_S. rewrite (WakeUp_n_S n s).
    destruct (WakeUp s) as [r| |]; [|done..]. simpl. apply IH.
Qed.

Lemma WakeUp_n_add (m n : nat) (s : Scheduler) :
  WakeUp_n (m + n) s = let* s1 := WakeUp_n m s in WakeUp_n n s1.
Proof.
  revert s. induction m as [|m IH]; intros s; [done|].
  change (S m + n)%nat with (S (m + n)). rewrite !WakeUp_n_S.
  destruct (WakeUp s) as [r| |]; [|done..]. simpl. apply IH.
Qed.

Lemma FallAsleep_result (s : Scheduler) (t : tid) (val : Z) :
  level s = IntOff ->
  FallAsleep s t val =
    Ok (set_threads (setStatus t BLOCKED (threads s))
          (set_sleepingList
             (sleepingList s ++ [(t, int_add (current s) val)]) s)).
Proof. intros Hoff. unfold FallAsleep, Thread_Sleep. by rewrite IntOff_b_true. Qed.

(** After [FallAsleep s t d] of a thread that is neither ready nor already
    asleep, and as long as the tick stays in the range of [int], [k] calls
    of [WakeUp] have put [t] on the ready list exactly when [d < k]. *)
Lemma sleeper_ready_after (s s1 : Scheduler) (t : tid) (d : Z) (k : nat) :
  level s = IntOff -> 0 <= d ->
  INT_MIN <= current s -> current s + d < INT_MAX ->
  (k <= S (Z.to_nat d))%nat ->
  t ∉ readyList s -> t ∉ (sleepingList s).*1 ->
  FallAsleep s t d = Ok s1 ->
  exists sk, WakeUp_n k s1 = Ok sk
    /\ level sk = IntOff
    /\ current sk = current s + Z.of_nat k
    /\ (t ∈ readyList sk <-> d < Z.of_nat k)
    /\ ((t, current s + d) ∈ sleepingList sk <-> Z.of_nat k <= d).
Proof.
  intros Hoff Hd Hlo Hhi Hk Hr Hs HF. rewrite FallAsleep_result in HF by done.
  rewrite int_add_in_range in HF by lia. injection HF as <-.
  match goal with |- context [WakeUp_n k ?s1] =>
    destruct (WakeUp_n_membership k s1 Hoff)
      as (sk & HW & Hoffk & Hck & Hsk & Hrk); [simpl; lia..|]
  end.
  simpl in *. exists sk. split; [done|]. split; [done|]. split; [done|].
  split.
  - rewrite Hrk. split.
    + intros [H|(w & Hin & Hw & Hn)]; [done|].
      apply elem_of_app in Hin as [Hin|Hin].
      * exfalso. apply Hs. apply list_elem_of_fmap. by exists (t, w).
      * apply list_elem_of_singleton in Hin. injection Hin as ->. lia.
    + intros Hlt. right. exists (current s + d).
      split; [apply elem_of_app; right; by apply list_elem_of_singleton|].
      split; [lia|]. intros ->. simpl in Hlt. lia.
  - rewrite Hsk. simpl. split.
    + intros [_ [->|H]]; simpl; lia.
    + intros Hle. split; [apply elem_of_app; right; by apply list_elem_of_singleton|].
      right. lia.
Qed.

(** ** C1: a sleeper is woken on call number [d + 1] *)

(** C1, as the code has it: with interrupts off, after [FallAsleep s t d]
    with [0 <= d] of a thread that is neither ready nor already asleep, and
    with the tick in the range of [int] up to one past the wake tick
    ([current + d < INT_MAX]), the call of [WakeUp] that puts [t] on the
    ready list is call number [d + 1] and no other; through the first [d]
    calls [t] stays on the sleeping list; the tick at which [t] becomes
    ready is one past its wake tick. *)
Theorem FallAsleep_woken_on_call (s : Scheduler) (t : tid) (d : Z) :
  level s = IntOff -> 0 <= d ->
  INT_MIN <= current s -> current s + d < INT_MAX ->
  t ∉ readyList s -> t ∉ (sleepingList s).*1 ->
  exists s1, FallAsleep s t d = Ok s1
    /\ moved_on_call s1 t (S (Z.to_nat d))
    /\ (forall n, moved_on_call s1 t n -> n = S (Z.to_nat d))
    /\ (forall k, (k <= Z.to_nat d)%nat ->
          exists sk, WakeUp_n k s1 = Ok sk
            /\ (t ∉ readyList sk) /\ (t, current s + d) ∈ sleepingList sk)
    /\ (exists sw, WakeUp_n (S (Z.to_nat d)) s1 = Ok sw
          /\ t ∈ readyList sw /\ current sw = (current s + d) + 1).
Proof.
  intros Hoff Hd Hlo Hhi Hr Hs.
  pose proof (FallAsleep_result s t d Hoff) as HF.
  eexists. split; [exact HF|].
  pose proof (fun k Hk =>
                sleeper_ready_after s _ t d k Hoff Hd Hlo Hhi Hk Hr Hs HF) as Hk.
  split; [|split; [|split]].
  - simpl. destruct (Hk (Z.to_nat d)) as (sb & HWb & Hoffb & _ & Hrb & _); [lia|].
    destruct (Hk (S (Z.to_nat d))) as (sa & HWa & _ & _ & Hra & _); [lia|].
    rewrite WakeUp_n_snoc, HWb in HWa. simpl in HWa.
    destruct (WakeUp sb) as [r| |] eqn:Er; [|done..]. simpl in HWa.
    injection HWa as Hr2.
    exists sb, r. split; [done|]. split; [done|]. split.
    + rewrite Hrb. lia.
    + rewrite Hr2, Hra. lia.
  - intros [|k]; [done|]. simpl. intros (sb & r & HWb & Er & Hnb & Hina).
    destruct (decide (k <= Z.to_nat d)%nat) as [Hle|Hgt].
    + destruct (Hk k) as (sb' & HWb' & _ & _ & Hrb & _); [lia|].
      destruct (Hk (S k)) as (sa & HWa & _ & _ & Hra & _); [lia|].
      rewrite HWb in HWb'. injection HWb' as <-.
      rewrite WakeUp_n_snoc, HWb in HWa. simpl in HWa. rewrite Er in HWa.
      simpl in HWa. injection HWa as Hr2. rewrite Hr2 in Hina.
      apply Hra in Hina. rewrite Hrb in Hnb. f_equal. lia.
    + exfalso. apply Hnb.
      destruct (Hk (S (Z.to_nat d))) as (sa & HWa & Hoffa & _ & Hra & _); [lia|].
      replace k with (S (Z.to_nat d) + (k - S (Z.to_nat d)))%nat in HWb by lia.
      rewrite WakeUp_n_add, HWa in HWb. simpl in HWb.
      destruct (WakeUp_n_returns (k - S (Z.to_nat d)) sa Hoffa)
        as (sb' & HWb' & _ & _ & Hmono & _).
      rewrite HWb in HWb'. injection HWb' as <-.
      apply Hmono, Hra. lia.
  - intros k Hle. destruct (Hk k) as (sk & HWk & _ & _ & Hrk & Hsk); [lia|].
    exists sk. split; [done|]. rewrite Hrk, Hsk. split; lia.
  - destruct (Hk (S (Z.to_nat d))) as (sa & HWa & _ & Hca & Hra & _); [lia|].
    exists sa. split; [done|]. rewrite Hra. split; lia.
Qed.

Lemma FallAsleep_woken_on_call_witness :
  exists s1, FallAsleep (demo_state FCFS [2%nat]) 0%nat 2 = Ok s1
    /\ moved_on_call s1 0%nat 3
    /\ (forall n, moved_on_call s1 0%nat n -> n = 3%nat).
Proof.
  destruct (FallAsleep_woken_on_call (demo_state FCFS [2%nat]) 0%nat 2)
    as (s1 & HF & Hm & Hu & _).
  - reflexivity.
  - lia.
  - unfold INT_MIN. simpl. lia.
  - unfold INT_MAX. simpl. lia.
  - simpl. intros H. apply list_elem_of_singleton in H. discriminate H.
  - simpl. apply not_elem_of_nil.
  - exists s1. split; [exact HF|]. split; [exact Hm|exact Hu].
Defined.

(** C1 with call number [d] in place of [d + 1] fails: after [FallAsleep]
    with duration 1 the first call of [WakeUp] wakes nobody and leaves the
    sleeper on the sleeping list. *)
Lemma FallAsleep_not_woken_on_call_d :
  exists s1, FallAsleep (demo_state FCFS [2%nat]) 0%nat 1 = Ok s1
    /\ (exists s2, WakeUp s1 = Ok (false, s2)
          /\ readyList s2 = [2%nat] /\ sleepingList s2 = [(0%nat, 1)])
    /\ ~ moved_on_call s1 0%nat (Z.to_nat 1).
Proof.
  eexists. split; [reflexivity|]. split.
  { eexists. split; [vm_compute; reflexivity|]. split; reflexivity. }
  intros (sb & r & Hsb & Hr & _ & Hin).
  simpl in Hsb. injection Hsb as <-.
  vm_compute in Hr. injection Hr as <-.
  simpl in Hin. apply list_elem_of_singleton in Hin. discriminate Hin.
Qed.

(** ** Order of waking *)

Lemma FallAsleep_all_result (reqs : list (tid * Z)) (s : Scheduler) :
  level s = IntOff ->
  exists s1, FallAsleep_all s reqs = Ok s1
    /\ level s1 = IntOff
    /\ current s1 = current s
    /\ readyList s1 = readyList s
    /\ schedulerType s1 = schedulerType s
    /\ sleepingList s1
       = sleepingList s
           ++ ((fun r => (r.1, int_add (current s) r.2)) <$> reqs).
Proof.
  revert s. induction reqs as [|r reqs IH]; intros s Hoff.
  - exists s. simpl. by rewrite app_nil_r.
  - simpl. rewrite FallAsleep_result by done. simpl.
    match goal with |- context [FallAsleep_all ?s1 reqs] =>
      destruct (IH s1 Hoff) as (s2 & -> & Hoff2 & Hc & Hr & Ht & Hs)
    end.
    simpl in *. exists s2. repeat split; try done.
    rewrite Hs, <- app_assoc. reflexivity.
Qed.

Lemma filter_all {A} (P : A -> Prop) `{!forall x, Decision (P x)} (l : list A) :
  (forall x, P x) -> filter P l = l.
Proof.
  intros HP. induction l as [|x l IH]; [done|].
  by rewrite filter_cons_True, IH.
Qed.

Lemma readyList_markReady_all_FCFS (ts : list tid) (s : Scheduler) :
  schedulerType s = FCFS ->
  readyList (markReady_all ts s) = readyList s ++ ts.
Proof.
  revert s. induction ts as [|t ts IH]; intros s Hty.
  - by rewrite app_nil_r.
  - rewrite markReady_all_cons, IH by done.
    unfold markReady, readyList_Append. simpl. rewrite Hty.
    unfold ListH.Append. by rewrite <- app_assoc.
Qed.

(** C10: after [FallAsleep] for the requests [reqs] in turn, the sleeping
    list is the old one followed by the requests in call order, each with
    its wake tick (the [int] sum of the tick and the duration); any number
    of [WakeUp] calls leave what is still asleep in that order; and the
    next [WakeUp] hands the threads whose wake tick is below the new tick to
    [ReadyToRun] in that order, so that under FCFS they join the back of
    the ready list in the order of their [FallAsleep] calls. *)
Theorem woken_in_FallAsleep_order (s : Scheduler) (reqs : list (tid * Z))
    (n : nat) :
  level s = IntOff ->
  exists s1 sn woken s',
    FallAsleep_all s reqs = Ok s1
    /\ sleepingList s1
       = sleepingList s
           ++ ((fun r => (r.1, int_add (current s) r.2)) <$> reqs)
    /\ WakeUp_n n s1 = Ok sn
    /\ sleepingList sn `sublist_of` sleepingList s1
    /\ WakeUp sn = Ok (woken, s')
    /\ sleepingList s'
       = filter (fun e => ~ Expired (current s') e) (sleepingList sn)
    /\ (exists s0,
          ReadyToRun_all (set_current (current s') sn)
            (filter (Expired (current s')) (sleepingList sn)).*1 = Ok s0
          /\ s' = set_sleepingList (sleepingList s') s0)
    /\ (schedulerType s = FCFS ->
          readyList s'
          = readyList sn
              ++ (filter (Expired (current s')) (sleepingList sn)).*1).
Proof.
  intros Hoff.
  destruct (FallAsleep_all_result reqs s Hoff)
    as (s1 & HF & Hoff1 & Hc1 & Hr1 & Ht1 & Hs1).
  destruct (WakeUp_n_returns n s1 Hoff1)
    as (sn & HW & Hoffn & Htn & _ & Hsn).
  exists s1, sn. eexists _, _. split; [done|]. split; [done|].
  split; [done|]. split; [done|].
  split; [by apply WakeUp_result|].
  destruct (markReady_all_frame
              (filter (Expired (int_add (current sn) 1)) (sleepingList sn)).*1
              (set_current (int_add (current sn) 1) sn)) as (_ & Hc & _).
  simpl in *. rewrite Hc. split; [done|]. split.
  - rewrite ReadyToRun_all_IntOff by done. eauto.
  - intros Hty. rewrite readyList_markReady_all_FCFS; [done|].
    simpl. congruence.
Qed.

Lemma woken_in_FallAsleep_order_witness :
  exists s1 sn woken s',
    FallAsleep_all (demo_state FCFS [4%nat])
      [(1%nat, 0); (2%nat, 5); (3%nat, 0)] = Ok s1
    /\ WakeUp_n 0 s1 = Ok sn
    /\ WakeUp sn = Ok (woken, s')
    /\ readyList s' = [4%nat; 1%nat; 3%nat].
Proof.
  destruct (woken_in_FallAsleep_order (demo_state FCFS [4%nat])
              [(1%nat, 0); (2%nat, 5); (3%nat, 0)] 0%nat eq_refl)
    as (s1 & sn & woken & s' & HF & _ & HW & _ & HWk & _ & _ & Hfcfs).
  exists s1, sn, woken, s'. split; [exact HF|]. split; [exact HW|].
  split; [exact HWk|]. rewrite (Hfcfs eq_refl).
  simpl in HW. injection HW as <-.
  vm_compute in HF. injection HF as <-.
  vm_compute in HWk. injection HWk as _ <-. reflexivity.
Defined.

(** ** Sequences of ReadyToRun and FindNextToRun *)

Lemma FindNextToRun_result (s : Scheduler) :
  level s = IntOff ->
  FindNextToRun s =
    Ok (match readyList s with
        | [] => (None, s)
        | t :: l => (Some t, set_readyList l s)
        end).
Proof.
  intros Hoff. unfold FindNextToRun. rewrite IntOff_b_true by done. simpl.
  by destruct (readyList s).
Qed.

Lemma run_ops_app (ops1 ops2 : list sched_op) (s : Scheduler) :
  run_ops s (ops1 ++ ops2)
  = let* r1 := run_ops s ops1 in
    let* r2 := run_ops r1.2 ops2 in
    Ok (r1.1 ++ r2.1, r2.2).
Proof.
  revert s. induction ops1 as [|[t|] ops1 IH]; intros s; simpl.
  - by destruct (run_ops s ops2) as [[??]| |].
  - destruct (ReadyToRun s t); [|done..]. simpl. apply IH.
  - destruct (FindNextToRun s) as [r| |]; [|done..]. simpl. rewrite IH.
    destruct (run_ops r.2 ops1) as [r1| |]; [|done..]. simpl.
    destruct (run_ops r1.2 ops2) as [r2| |]; [|done..]. simpl.
    by rewrite app_assoc.
Qed.

Lemma run_ops_MarkReady (ts : list tid) (s : Scheduler) :
  level s = IntOff ->
  run_ops s (MarkReady <$> ts) = Ok ([], markReady_all ts s).
Proof.
  revert s. induction ts as [|t ts IH]; intros s Hoff; [done|].
  simpl. rewrite ReadyToRun_IntOff by done. simpl. by apply IH.
Qed.

(** [n] calls of [FindNextToRun] take the first [n] threads of the ready
    list, in list order. *)
Lemma run_ops_SelectNext (n : nat) (s : Scheduler) :
  level s = IntOff ->
  run_ops s (replicate n SelectNext)
  = Ok (take n (readyList s), set_readyList (drop n (readyList s)) s).
Proof.
  revert s. induction n as [|n IH]; intros s Hoff; simpl.
  - by rewrite drop_0, set_readyList_id.
  - rewrite FindNextToRun_result by done. simpl.
    destruct (readyList s) as [|t l] eqn:E; simpl.
    + rewrite IH by done. rewrite E. by rewrite take_nil, drop_nil.
    + rewrite IH by done. simpl. reflexivity.
Qed.

(** ** FCFS *)

(** C6: under FCFS with interrupts off, every sequence of [ReadyToRun] and
    [FindNextToRun] calls returns; the threads already ready followed by
    the threads marked ready are, in that order, the threads returned
    followed by the threads still ready; and marking [ts] ready on an
    empty list and then calling [FindNextToRun] once per thread returns
    [ts] itself. *)
Theorem FCFS_dispatch_order (s : Scheduler) (ops : list sched_op) :
  schedulerType s = FCFS -> level s = IntOff ->
  (exists out s', run_ops s ops = Ok (out, s')
     /\ readyList s ++ marked ops = out ++ readyList s')
  /\ (forall ts, readyList s = [] ->
        exists s', run_ops s (mark_then_drain ts) = Ok (ts, s')
                   /\ readyList s' = []).
Proof.
  intros Hty Hoff. split.
  - revert s Hty Hoff. induction ops as [|[t|] ops IH]; intros s Hty Hoff; simpl.
    + exists [], s. by rewrite app_nil_r.
    + rewrite ReadyToRun_IntOff by done. simpl.
      destruct (IH (markReady t s)) as (out & s' & -> & Heq); [done..|].
      exists out, s'. split; [done|]. rewrite <- Heq.
      unfold markReady, readyList_Append. simpl. rewrite Hty.
      unfold ListH.Append. by rewrite <- app_assoc.
    + rewrite FindNextToRun_result by done.
      destruct (readyList s) as [|t l] eqn:E; simpl.
      * destruct (IH s) as (out & s' & -> & Heq); [done..|].
        exists out, s'. split; [done|]. by rewrite E in Heq.
      * destruct (IH (set_readyList l s)) as (out & s' & -> & Heq); [done..|].
        exists (t :: out), s'. split; [done|]. simpl in *. by rewrite Heq.
  - intros ts Hempty. unfold mark_then_drain.
    rewrite run_ops_app, run_ops_MarkReady by done. simpl.
    destruct (markReady_all_frame ts s) as (Hl & _).
    rewrite run_ops_SelectNext by (by rewrite Hl). simpl.
    rewrite readyList_markReady_all_FCFS, Hempty by done. simpl.
    rewrite take_ge, drop_ge by done. eauto.
Qed.

Lemma FCFS_dispatch_order_witness :
  (exists out s',
     run_ops (demo_state FCFS [3%nat])
       [MarkReady 1%nat; SelectNext; MarkReady 2%nat; SelectNext; SelectNext;
        SelectNext; MarkReady 4%nat] = Ok (out, s')
     /\ [3%nat; 1%nat; 2%nat; 4%nat] = out ++ readyList s')
  /\ exists s', run_ops (demo_state FCFS [])
                  (mark_then_drain [1%nat; 2%nat; 3%nat; 4%nat])
                = Ok ([1%nat; 2%nat; 3%nat; 4%nat], s')
                /\ readyList s' = [].
Proof.
  split.
  - apply (FCFS_dispatch_order (demo_state FCFS [3%nat])); reflexivity.
  - apply (FCFS_dispatch_order (demo_state FCFS []) [] eq_refl eq_refl).
    reflexivity.
Defined.

(** ** Sorted insertion *)

Section SortedInsert.

Context {T : Type}.
Variable key : T -> Z.
Variable compare : T -> T -> Z.
Hypothesis compare_lt : forall a b, compare a b < 0 <-> key a < key b.

Lemma Insert_Permutation (x : T) (l : list T) :
  ListH.Insert compare x l ≡ₚ x :: l.
Proof.
  induction l as [|y l IH]; simpl; [done|].
  destruct (compare x y <? 0); [done|].
  rewrite IH. apply Permutation_swap.
Qed.

(** The new item goes after every item with a key up to its own and
    before every item with a greater key. *)
Lemma Insert_split (x : T) (l : list T) :
  StronglySorted (key_le key) l ->
  exists l1 l2, l = l1 ++ l2
    /\ ListH.Insert compare x l = l1 ++ x :: l2
    /\ Forall (fun y => key y <= key x) l1
    /\ Forall (fun y => key x < key y) l2.
Proof.
  induction 1 as [|y l Hs IH Hy]; simpl.
  - exists [], []. repeat split; constructor.
  - destruct (Z.ltb_spec (compare x y) 0) as [Hlt|Hge].
    + exists [], (y :: l). apply compare_lt in Hlt.
      repeat split; [constructor|]. constructor; [done|].
      eapply Forall_impl; [exact Hy|]. unfold key_le. intros; simpl in *; lia.
    + destruct IH as (l1 & l2 & -> & -> & H1 & H2).
      exists (y :: l1), l2. repeat split; [|done].
      constructor; [|done].
      destruct (Z.lt_ge_cases (key x) (key y)) as [Hxy|Hxy]; [|lia].
      apply compare_lt in Hxy. lia.
Qed.

Lemma Insert_sorted (x : T) (l : list T) :
  StronglySorted (key_le key) l -> StronglySorted (key_le key) (ListH.Insert compare x l).
Proof.
  intros Hs. destruct (Insert_split x l Hs) as (l1 & l2 & -> & -> & H1 & H2).
  apply StronglySorted_app in Hs as (H12 & Hs1 & Hs2).
  apply StronglySorted_app_2; [|done|].
  - intros a b Ha Hb. apply elem_of_cons in Hb as [->|Hb].
    + by apply (proj1 (Forall_forall _ _) H1).
    + by apply H12.
  - constructor; [done|]. eapply Forall_impl; [exact H2|].
    unfold key_le. intros; simpl in *; lia.
Qed.

(** Among the items of one key, the new item is the last. *)
Lemma Insert_filter_key (p : Z) (x : T) (l : list T) :
  StronglySorted (key_le key) l ->
  filter (fun y => key y = p) (ListH.Insert compare x l)
  = filter (fun y => key y = p) l ++ filter (fun y => key y = p) [x].
Proof.
  intros Hs. destruct (Insert_split x l Hs) as (l1 & l2 & -> & -> & H1 & H2).
  rewrite !filter_app, filter_cons, <- app_assoc. f_equal.
  destruct (decide (key x = p)) as [Hp|Hp].
  - rewrite (filter_cons_True _ x []) by done.
    assert (filter (fun y => key y = p) l2 = []) as ->; [|done].
    clear Hs. induction H2 as [|y l2 Hy H2 IH]; [done|].
    rewrite filter_cons_False by lia. apply IH.
  - rewrite (filter_cons_False _ x []) by done. by rewrite app_nil_r.
Qed.

Lemma Insert_all_cons (l : list T) (t : T) (ts : list T) :
  Insert_all compare l (t :: ts)
  = Insert_all compare (ListH.Insert compare t l) ts.
Proof. reflexivity. Qed.

Lemma Insert_all_Permutation (l ts : list T) :
  Insert_all compare l ts ≡ₚ l ++ ts.
Proof.
  revert l. induction ts as [|t ts IH]; intros l.
  - by rewrite app_nil_r.
  - rewrite Insert_all_cons, IH, Insert_Permutation. simpl.
    apply Permutation_middle.
Qed.

Lemma Insert_all_sorted (l ts : list T) :
  StronglySorted (key_le key) l -> StronglySorted (key_le key) (Insert_all compare l ts).
Proof.
  revert l. induction ts as [|t ts IH]; intros l Hs; [done|].
  rewrite Insert_all_cons. by apply IH, Insert_sorted.
Qed.

Lemma Insert_all_filter_key (p : Z) (l ts : list T) :
  StronglySorted (key_le key) l ->
  filter (fun y => key y = p) (Insert_all compare l ts)
  = filter (fun y => key y = p) l ++ filter (fun y => key y = p) ts.
Proof.
  revert l. induction ts as [|t ts IH]; intros l Hs.
  - by rewrite app_nil_r.
  - rewrite Insert_all_cons, IH by (by apply Insert_sorted).
    rewrite Insert_filter_key by done.
    rewrite <- app_assoc. f_equal. by rewrite <- filter_app.
Qed.

(** In a sorted list an item of smaller key stands before one of greater
    key. *)
Lemma sorted_smaller_first (l : list T) (a b : T) :
  StronglySorted (key_le key) l -> a ∈ l -> b ∈ l -> key a < key b ->
  exists l1 l2 l3, l = l1 ++ a :: l2 ++ b :: l3.
Proof.
  intros Hs Ha Hb Hab.
  apply list_elem_of_split in Ha as (l1 & l' & ->).
  apply StronglySorted_app in Hs as (H12 & _ & Hs2).
  apply elem_of_app in Hb as [Hb|Hb].
  - specialize (H12 b a Hb ltac:(by left)). unfold key_le in H12. lia.
  - apply elem_of_cons in Hb as [->|Hb]; [lia|].
    apply list_elem_of_split in Hb as (l2 & l3 & ->).
    by exists l1, l2, l3.
Qed.

End SortedInsert.

(** ** Priority *)

Lemma getPriority_setStatus (t x : tid) (st : ThreadStatus) (ths : Threads) :
  getPriority (setStatus t st ths) x = getPriority ths x.
Proof.
  unfold getPriority, setStatus. rewrite lookup_alter.
  case_decide; [subst|done]. by destruct (ths !! x).
Qed.

Lemma PriorityCompare_setStatus (t a b : tid) (st : ThreadStatus) (ths : Threads) :
  PriorityCompare (setStatus t st ths) a b = PriorityCompare ths a b.
Proof. unfold PriorityCompare. by rewrite !getPriority_setStatus. Qed.

Lemma Insert_ext {T} (c1 c2 : T -> T -> Z) (x : T) (l : list T) :
  (forall a b, c1 a b = c2 a b) -> ListH.Insert c1 x l = ListH.Insert c2 x l.
Proof.
  intros Hc. induction l as [|y l IH]; simpl; [done|]. by rewrite Hc, IH.
Qed.

Lemma Insert_all_ext {T} (c1 c2 : T -> T -> Z) (l ts : list T) :
  (forall a b, c1 a b = c2 a b) -> Insert_all c1 l ts = Insert_all c2 l ts.
Proof.
  intros Hc. revert l. induction ts as [|t ts IH]; intros l; [done|].
  simpl. by rewrite IH, (Insert_ext c1 c2).
Qed.

(** Under Priority a batch of [ReadyToRun] calls is a batch of sorted
    insertions by the priorities the threads had at the start. *)
Lemma readyList_markReady_all_Priority (ts : list tid) (s : Scheduler) :
  schedulerType s = Priority ->
  readyList (markReady_all ts s)
  = Insert_all (PriorityCompare (threads s)) (readyList s) ts.
Proof.
  revert s. induction ts as [|t ts IH]; intros s Hty; [done|].
  rewrite markReady_all_cons, IH by done.
  unfold markReady at 2. unfold readyList_Append. simpl. rewrite Hty.
  rewrite (Insert_ext _ (PriorityCompare (threads s)))
    by (intros a b; apply PriorityCompare_setStatus).
  apply Insert_all_ext. intros a b. simpl. apply PriorityCompare_setStatus.
Qed.

Lemma SelfTest_threads_0 :
  SelfTest_threads 0 {[0%nat := main_thread]} = Ok demo_threads.
Proof. reflexivity. Qed.

Lemma length_Insert {T} (compare : T -> T -> Z) (x : T) (l : list T) :
  length (ListH.Insert compare x l) = S (length l).
Proof.
  induction l as [|y l IH]; simpl; [done|].
  destruct (compare x y <? 0); simpl; [done|]. by rewrite IH.
Qed.

Lemma length_readyList_markReady (t : tid) (s : Scheduler) :
  length (readyList (markReady t s)) = S (length (readyList s)).
Proof.
  unfold markReady, readyList_Append. simpl.
  destruct (schedulerType s); unfold ListH.Append;
    rewrite ?length_Insert, ?length_app; simpl; lia.
Qed.

Lemma length_readyList_markReady_all (ts : list tid) (s : Scheduler) :
  length (readyList (markReady_all ts s))
  = (length (readyList s) + length ts)%nat.
Proof.
  revert s. induction ts as [|t ts IH]; intros s; [simpl; lia|].
  rewrite markReady_all_cons, IH, length_readyList_markReady. simpl. lia.
Qed.

(** Marking [ts] ready on an empty ready list and then taking one thread per
    call returns the ready list that the marking built, front to back. *)
Lemma run_mark_then_drain (ts : list tid) (s : Scheduler) :
  level s = IntOff -> readyList s = [] ->
  run_ops s (mark_then_drain ts)
  = Ok (readyList (markReady_all ts s), set_readyList [] (markReady_all ts s)).
Proof.
  intros Hoff Hempty. unfold mark_then_drain.
  rewrite run_ops_app, run_ops_MarkReady by done. simpl.
  destruct (markReady_all_frame ts s) as (Hl & _).
  rewrite run_ops_SelectNext by (by rewrite Hl). simpl.
  pose proof (length_readyList_markReady_all ts s) as Hlen.
  rewrite Hempty in Hlen. simpl in Hlen.
  rewrite take_ge, drop_ge by lia. reflexivity.
Qed.

Lemma PriorityCompare_ext (ths1 ths2 : Threads) (a b : tid) :
  (forall x, getPriority ths1 x = getPriority ths2 x) ->
  PriorityCompare ths1 a b = PriorityCompare ths2 a b.
Proof. intros H. unfold PriorityCompare. by rewrite !H. Qed.

(** Under Priority every sequence of calls keeps the ready list in
    ascending order of the priority values, which the calls do not change. *)
Lemma run_ops_Priority_sorted (ths0 : Threads) (ops : list sched_op)
    (s : Scheduler) :
  schedulerType s = Priority -> level s = IntOff ->
  (forall x, getPriority (threads s) x = getPriority ths0 x) ->
  StronglySorted (key_le (getPriority ths0)) (readyList s) ->
  exists out s', run_ops s ops = Ok (out, s')
    /\ level s' = IntOff
    /\ (forall x, getPriority (threads s') x = getPriority ths0 x)
    /\ StronglySorted (key_le (getPriority ths0)) (readyList s').
Proof.
  revert s. induction ops as [|[t|] ops IH]; intros s Hty Hoff Hprio Hs; simpl.
  - by exists [], s.
  - rewrite ReadyToRun_IntOff by done. simpl.
    destruct (IH (markReady t s)) as (out & s' & -> & H); try done.
    + intros x. simpl. by rewrite getPriority_setStatus.
    + unfold markReady, readyList_Append. simpl. rewrite Hty.
      rewrite (Insert_ext _ (PriorityCompare ths0)).
      * apply (Insert_sorted (getPriority ths0)); [|done].
        apply PriorityCompare_lt.
      * intros a b. apply PriorityCompare_ext. intros x.
        by rewrite getPriority_setStatus.
    + by exists out, s'.
  - rewrite FindNextToRun_result by done.
    destruct (readyList s) as [|t l] eqn:E; simpl.
    + destruct (IH s) as (out & s' & -> & H); try done.
      * by rewrite E.
      * by exists out, s'.
    + destruct (IH (set_readyList l s)) as (out & s' & -> & H); try done.
      * simpl. by apply StronglySorted_inv in Hs as [Hs _].
      * by exists (t :: out), s'.
Qed.

(** X19: under Priority, marking the threads [ts] ready and then
    dispatching until the ready list is empty returns them in ascending
    order of their priority value, threads of equal priority in the order
    they were marked ready; so of two threads with different priority values
    the one with the smaller value is dispatched first.  After any sequence
    of calls the thread that [FindNextToRun] returns has the least priority
    value of the ready threads. *)
Theorem Priority_dispatch_order (ths : Threads) (cur : tid) (ts : list tid) :
  (exists out s',
     run_ops (Scheduler_new Priority cur IntOff ths) (mark_then_drain ts)
     = Ok (out, s')
     /\ readyList s' = []
     /\ out ≡ₚ ts
     /\ StronglySorted (key_le (getPriority ths)) out
     /\ (forall p, filter (fun t => getPriority ths t = p) out
                   = filter (fun t => getPriority ths t = p) ts)
     /\ (forall a b, a ∈ ts -> b ∈ ts ->
           getPriority ths a < getPriority ths b ->
           exists l1 l2 l3, out = l1 ++ a :: l2 ++ b :: l3))
  /\ (forall ops, exists out s',
        run_ops (Scheduler_new Priority cur IntOff ths) ops = Ok (out, s')
        /\ (forall t s'', FindNextToRun s' = Ok (Some t, s'') ->
              forall b, b ∈ readyList s'' ->
                getPriority (threads s') t <= getPriority (threads s') b)).
Proof.
  split.
  - rewrite run_mark_then_drain by done.
    rewrite readyList_markReady_all_Priority by done. simpl.
    eexists _, _. split; [reflexivity|]. split; [done|].
    pose proof (PriorityCompare_lt ths) as Hlt.
    assert (StronglySorted (key_le (getPriority ths))
              (Insert_all (PriorityCompare ths) [] ts)) as Hsorted.
    { apply (Insert_all_sorted (getPriority ths)); [done|constructor]. }
    assert (Insert_all (PriorityCompare ths) [] ts ≡ₚ ts) as Hperm.
    { apply (Insert_all_Permutation (PriorityCompare ths) [] ts). }
    split; [done|]. split; [done|]. split.
    + intros p.
      rewrite (Insert_all_filter_key (getPriority ths)); [done..|constructor].
    + intros a b Ha Hb Hab.
      apply (sorted_smaller_first (getPriority ths)); [done| | |done].
      * by rewrite Hperm.
      * by rewrite Hperm.
  - intros ops.
    destruct (run_ops_Priority_sorted ths ops (Scheduler_new Priority cur IntOff ths))
      as (out & s' & Hrun & Hoff & Hprio & Hs); try done; [constructor|].
    exists out, s'. split; [done|]. intros t s'' HF b Hb.
    rewrite FindNextToRun_result in HF by done.
    destruct (readyList s') as [|t' l]; [discriminate HF|].
    injection HF as -> <-. simpl in Hb.
    apply StronglySorted_inv in Hs as [_ Hall].
    rewrite !Hprio. by apply (proj1 (Forall_forall _ _) Hall).
Qed.

Lemma Priority_dispatch_order_witness :
  exists out s',
    run_ops (Scheduler_new Priority 0%nat IntOff demo_threads)
      (mark_then_drain [1%nat; 3%nat; 2%nat]) = Ok (out, s')
    /\ exists l1 l2 l3, out = l1 ++ 2%nat :: l2 ++ 1%nat :: l3.
Proof.
  destruct (Priority_dispatch_order demo_threads 0%nat [1%nat; 3%nat; 2%nat])
    as [(out & s' & Hrun & _ & _ & _ & _ & Hpair) _].
  exists out, s'. split; [exact Hrun|].
  apply Hpair.
  - rewrite !elem_of_cons. auto.
  - rewrite !elem_of_cons. auto.
  - vm_compute. reflexivity.
Defined.

(** With the sorted ready list of Priority, the thread just taken from the
    front has no reason to yield to the new front. *)
Lemma needYield_after_dispatch_Priority (s : Scheduler) (t : tid) (l : list tid) :
  schedulerType s = Priority ->
  StronglySorted (key_le (getPriority (threads s))) (t :: l) ->
  needYield (set_currentThread t (set_readyList l s)) = false.
Proof.
  intros Hty Hs. unfold needYield. simpl. rewrite Hty.
  destruct l as [|next l]; simpl; [done|].
  apply StronglySorted_inv in Hs as [_ Hall].
  apply Forall_cons in Hall as [Hle _].
  apply not_true_is_false. rewrite gtb_0_true, PriorityCompare_flip.
  rewrite PriorityCompare_lt. unfold key_le in Hle. lia.
Qed.

(** ** ReleaseAll *)

Module MemoryFacts.
Import Memory.

Lemma release_pages_map (pt : ptid) (vs : list Z) (tbl : list FrameInfoEntry) :
  foldl (fun tbl v => release_page pt v tbl) tbl vs
  = (fun e => if decide (refers_to pt e /\ vpn e ∈ vs)
              then free_entry e else e) <$> tbl.
Proof.
  revert tbl. induction vs as [|v vs IH]; intros tbl; simpl.
  - rewrite <- (list_fmap_id tbl) at 1. apply list_fmap_ext.
    intros i e _. rewrite decide_False; [done|].
    intros [_ H]. by apply elem_of_nil in H.
  - rewrite IH. unfold release_page. rewrite <- list_fmap_compose.
    apply list_fmap_ext. intros i e _. simpl.
    destruct (decide (owned_by pt v e)) as [(Hv & Hp & Hn)|Hno].
    + rewrite decide_False by (intros [[H _] _]; simpl in H; discriminate H).
      rewrite decide_True; [done|]. split; [by split|]. subst v. by left.
    + apply decide_ext. unfold refers_to, owned_by in *.
      rewrite elem_of_cons. intuition.
Qed.

Lemma ReleaseAll_tables (mm : MemoryManager) (pt : ptid) (vs : list Z) :
  frameTable (foldl (release_step pt) mm vs)
  = foldl (fun tbl v => release_page pt v tbl) (frameTable mm) vs
  /\ swapTable (foldl (release_step pt) mm vs)
     = foldl (fun tbl v => release_page pt v tbl) (swapTable mm) vs
  /\ MemoryManager_count (foldl (release_step pt) mm vs)
     = MemoryManager_count mm.
Proof.
  revert mm. induction vs as [|v vs IH]; intros mm; simpl; [done|].
  apply (IH (release_step pt mm v)).
Qed.

Lemma ReleaseAll_frameTable (mm : MemoryManager) (pt : ptid) (num : Z) :
  frameTable (ReleaseAll mm pt num) = released pt num <$> frameTable mm.
Proof.
  unfold ReleaseAll.
  destruct (ReleaseAll_tables mm pt (seqZ 0 num)) as (-> & _).
  apply release_pages_map.
Qed.

Lemma ReleaseAll_swapTable (mm : MemoryManager) (pt : ptid) (num : Z) :
  swapTable (ReleaseAll mm pt num) = released pt num <$> swapTable mm.
Proof.
  unfold ReleaseAll.
  destruct (ReleaseAll_tables mm pt (seqZ 0 num)) as (_ & -> & _).
  apply release_pages_map.
Qed.

Lemma released_not_owned (pt : ptid) (num v : Z) (e : FrameInfoEntry) :
  0 <= v < num -> ~ owned_by pt v (released pt num e).
Proof.
  intros Hv. unfold released.
  destruct (decide (refers_to pt e /\ vpn e ∈ seqZ 0 num)) as [_|Hno].
  - intros (H & _). simpl in H. discriminate H.
  - intros (H1 & H2 & H3). apply Hno. split; [by split|].
    apply elem_of_seqZ. lia.
Qed.

Lemma released_not_refers (pt : ptid) (num : Z) (e : FrameInfoEntry) :
  (refers_to pt e -> 0 <= vpn e < num) -> ~ refers_to pt (released pt num e).
Proof.
  intros Hpages. unfold released.
  destruct (decide (refers_to pt e /\ vpn e ∈ seqZ 0 num)) as [_|Hno].
  - intros (H & _). simpl in H. discriminate H.
  - intros Hr. apply Hno. split; [done|]. apply elem_of_seqZ.
    specialize (Hpages Hr). lia.
Qed.

Lemma released_other (pt : ptid) (num : Z) (e : FrameInfoEntry) :
  ~ refers_to pt e -> released pt num e = e.
Proof. intros Hr. unfold released. rewrite decide_False; [done|]. tauto. Qed.

(** C9: when every directory entry in use for the page table [pt] is for
    one of its pages 0 .. n-1, then after [ReleaseAll mm pt n] no entry of
    the frame directory or of the swap directory is in use for [pt], a
    lookup of any page of [pt] finds nothing in either directory, and the
    entries that were not in use for [pt] are as before. *)
Theorem ReleaseAll_no_dangling (mm : MemoryManager) (pt : ptid) (n : Z) :
  (forall e, e ∈ frameTable mm ++ swapTable mm ->
             refers_to pt e -> 0 <= vpn e < n) ->
  (forall e, e ∈ frameTable (ReleaseAll mm pt n)
                 ++ swapTable (ReleaseAll mm pt n) -> ~ refers_to pt e)
  /\ (forall v, find_entry (frameTable (ReleaseAll mm pt n)) pt v = None
                /\ find_entry (swapTable (ReleaseAll mm pt n)) pt v = None)
  /\ (forall i e, ~ refers_to pt e ->
         (frameTable mm !! i = Some e ->
          frameTable (ReleaseAll mm pt n) !! i = Some e)
         /\ (swapTable mm !! i = Some e ->
             swapTable (ReleaseAll mm pt n) !! i = Some e))
  /\ length (frameTable (ReleaseAll mm pt n)) = length (frameTable mm)
  /\ length (swapTable (ReleaseAll mm pt n)) = length (swapTable mm).
Proof.
  intros Hpages.
  assert (forall e, e ∈ frameTable (ReleaseAll mm pt n)
                        ++ swapTable (ReleaseAll mm pt n) -> ~ refers_to pt e)
    as Hnone.
  { intros e' He'.
    rewrite ReleaseAll_frameTable, ReleaseAll_swapTable, <- fmap_app in He'.
    apply list_elem_of_fmap in He' as (e & -> & He).
    apply released_not_refers. by apply Hpages. }
  split; [exact Hnone|]. split; [|split; [|split]].
  - intros v. unfold find_entry. split; apply list_find_None, Forall_forall;
      intros e He (Hv & Hp & _); apply (Hnone e); try (by split);
      apply elem_of_app; [by left|by right].
  - intros i e Hr.
    rewrite ReleaseAll_frameTable, ReleaseAll_swapTable, !list_lookup_fmap.
    split; intros ->; simpl; by rewrite released_other.
  - by rewrite ReleaseAll_frameTable, length_fmap.
  - by rewrite ReleaseAll_swapTable, length_fmap.
Qed.

Lemma ReleaseAll_no_dangling_witness :
  (forall e, e ∈ frameTable (ReleaseAll demo_mm 7%nat 3)
                 ++ swapTable (ReleaseAll demo_mm 7%nat 3) ->
             ~ refers_to 7%nat e)
  /\ (forall v, find_entry (frameTable (ReleaseAll demo_mm 7%nat 3)) 7%nat v
                = None
                /\ find_entry (swapTable (ReleaseAll demo_mm 7%nat 3)) 7%nat v
                   = None)
  /\ frameTable (ReleaseAll demo_mm 7%nat 3) !! 1%nat
     = Some (mkFrameInfoEntry true false 8%nat 1 0).
Proof.
  destruct (ReleaseAll_no_dangling demo_mm 7%nat 3) as (H1 & H2 & H3 & _).
  - apply (proj1 (Forall_forall
                     (fun e => refers_to 7%nat e -> 0 <= vpn e < 3) _)).
    simpl.
    repeat (apply Forall_cons_2;
            [intros [Hv Hp]; simpl in *; (lia || discriminate)|]).
    apply Forall_nil_2.
  - split; [exact H1|]. split; [exact H2|].
    apply (H3 1%nat (mkFrameInfoEntry true false 8%nat 1 0)).
    + intros [_ Hp]. simpl in Hp. discriminate Hp.
    + reflexivity.
Defined.

End MemoryFacts.

(** * Further properties of the scheduler *)

(** ** The comparators *)

(** X1: [SJFCompare] is the sign of the difference of the burst times and
    [PriorityCompare] the sign of the difference of the priority values;
    swapping the arguments negates the result. *)
Theorem compare_is_sign (ths : Threads) (a b : tid) :
  SJFCompare ths a b = Z.sgn (getBurstTime ths a - getBurstTime ths b)
  /\ PriorityCompare ths a b = Z.sgn (getPriority ths a - getPriority ths b)
  /\ SJFCompare ths b a = - SJFCompare ths a b
  /\ PriorityCompare ths b a = - PriorityCompare ths a b.
Proof.
  unfold SJFCompare, PriorityCompare.
  repeat match goal with
         | |- context [?x =? ?y] => destruct (Z.eqb_spec x y)
         | |- context [?x >? ?y] => destruct (Z.gtb_spec x y)
         end; repeat split; lia.
Qed.

(** ** Interrupts enabled *)

(** X2: with interrupts enabled, [ReadyToRun], [FindNextToRun] and [Run]
    fail their first assertion, whatever the other arguments are. *)
Theorem interrupts_on_abort (s : Scheduler) (t : tid) (finishing : bool)
    (SWITCH : tid -> tid -> Scheduler -> result Scheduler) :
  level s <> IntOff ->
  ReadyToRun s t = AssertFailed
  /\ FindNextToRun s = AssertFailed
  /\ Run SWITCH s t finishing = AssertFailed.
Proof.
  intros Hon. unfold ReadyToRun, FindNextToRun, Run, Run_before_SWITCH.
  by rewrite IntOff_b_false.
Qed.

Lemma interrupts_on_abort_witness :
  let s := mkScheduler Priority [2%nat] None [] 0 1%nat IntOn demo_threads in
  ReadyToRun s 3%nat = AssertFailed
  /\ FindNextToRun s = AssertFailed
  /\ Run (fun _ _ s => Ok s) s 3%nat false = AssertFailed.
Proof.
  intros s. apply (interrupts_on_abort s 3%nat false (fun _ _ s => Ok s)).
  discriminate.
Defined.

(** ** ReadyToRun *)

Lemma readyList_markReady_Permutation (t : tid) (s : Scheduler) :
  readyList (markReady t s) ≡ₚ t :: readyList s.
Proof.
  unfold markReady, readyList_Append. simpl.
  destruct (schedulerType s); unfold ListH.Append.
  - symmetry. apply Permutation_cons_append.
  - apply Insert_Permutation.
  - apply Insert_Permutation.
Qed.

(** X3: with interrupts off, [ReadyToRun s t] returns; the ready list is the
    old one with [t] added once; the object of [t] has status READY and is
    otherwise as before; no other thread object, and nothing else of the
    scheduler, is changed. *)
Theorem ReadyToRun_effect (s : Scheduler) (t : tid) :
  level s = IntOff ->
  exists s', ReadyToRun s t = Ok s'
    /\ readyList s' ≡ₚ t :: readyList s
    /\ threads s' !! t = Thread_setStatus READY <$> threads s !! t
    /\ (forall u, u <> t -> threads s' !! u = threads s !! u)
    /\ currentThread s' = currentThread s
    /\ sleepingList s' = sleepingList s
    /\ current s' = current s
    /\ toBeDestroyed s' = toBeDestroyed s
    /\ schedulerType s' = schedulerType s
    /\ level s' = IntOff.
Proof.
  intros Hoff. rewrite ReadyToRun_IntOff by done.
  eexists. split; [reflexivity|].
  split; [apply readyList_markReady_Permutation|]. simpl.
  split; [apply lookup_alter_eq|].
  split; [intros u Hu; by apply lookup_alter_ne|]. done.
Qed.

Lemma ReadyToRun_effect_witness :
  exists s', ReadyToRun (demo_state SJF [4%nat; 2%nat]) 3%nat = Ok s'
    /\ readyList s' = [4%nat; 3%nat; 2%nat]
    /\ threads s' !! 3%nat = Some (mkThread "C" READY 7 3 false)
    /\ threads s' !! 2%nat = demo_threads !! 2%nat.
Proof.
  destruct (ReadyToRun_effect (demo_state SJF [4%nat; 2%nat]) 3%nat eq_refl)
    as (s' & HR & _ & Ht & Hu & _).
  exists s'. split; [exact HR|]. split.
  - vm_compute in HR. injection HR as <-. reflexivity.
  - split; [rewrite Ht; reflexivity|]. apply Hu. discriminate.
Defined.

(** X4: on an empty ready list, under every policy, [ReadyToRun s t]
    followed by [FindNextToRun] returns [t] and leaves the ready list empty;
    the thread found still has status READY: only [Run] makes it RUNNING. *)
Theorem ReadyToRun_FindNextToRun (s : Scheduler) (t : tid) :
  level s = IntOff -> readyList s = [] ->
  exists s1 s2, ReadyToRun s t = Ok s1
    /\ FindNextToRun s1 = Ok (Some t, s2)
    /\ readyList s2 = []
    /\ threads s2 !! t = Thread_setStatus READY <$> threads s !! t.
Proof.
  intros Hoff Hempty. rewrite ReadyToRun_IntOff by done.
  eexists _, _. split; [reflexivity|].
  rewrite FindNextToRun_result by done.
  unfold markReady, readyList_Append. simpl. rewrite Hempty.
  destruct (schedulerType s); simpl;
    (split; [reflexivity|]; split; [reflexivity|]; apply lookup_alter_eq).
Qed.

Lemma ReadyToRun_FindNextToRun_witness :
  exists s1 s2, ReadyToRun (demo_state Priority []) 3%nat = Ok s1
    /\ FindNextToRun s1 = Ok (Some 3%nat, s2)
    /\ readyList s2 = []
    /\ threads s2 !! 3%nat
       = Thread_setStatus READY <$> demo_threads !! 3%nat.
Proof.
  apply (ReadyToRun_FindNextToRun (demo_state Priority []) 3%nat);
    reflexivity.
Defined.

(** ** Run *)



(** X6: when [SWITCH] gives control back with interrupts enabled, [Run]
    fails the assertion that follows the call. *)
Theorem Run_SWITCH_returns_IntOn
    (SWITCH : tid -> tid -> Scheduler -> result Scheduler)
    (s s1 s2 : Scheduler) (nextThread : tid) (finishing : bool) :
  Run_before_SWITCH s nextThread finishing = Ok s1 ->
  SWITCH (currentThread s) nextThread s1 = Ok s2 ->
  level s2 <> IntOff ->
  Run SWITCH s nextThread finishing = AssertFailed.
Proof.
  intros H1 H2 Hon. unfold Run. rewrite H1. simpl. rewrite H2. simpl.
  unfold Run_after_SWITCH. by rewrite IntOff_b_false.
Qed.

Lemma Run_SWITCH_returns_IntOn_witness :
  Run (fun _ _ s => Ok (mkScheduler (schedulerType s) (readyList s)
                          (toBeDestroyed s) (sleepingList s) (current s)
                          (currentThread s) IntOn (threads s)))
      (demo_state FCFS [3%nat]) 2%nat false = AssertFailed.
Proof.
  eapply Run_SWITCH_returns_IntOn.
  - reflexivity.
  - reflexivity.
  - discriminate.
Defined.

(** ** CheckToBeDestroyed *)

(** X7: [CheckToBeDestroyed] deletes the thread object in the slot, empties
    the slot and deletes no other object; it does nothing on an empty slot,
    so a second call changes nothing; it leaves the ready list, the
    sleeping list and the current thread as they are, even if they name the
    deleted thread. *)
Theorem CheckToBeDestroyed_only_slot (s : Scheduler) :
  (forall t, toBeDestroyed s = Some t ->
     threads (CheckToBeDestroyed s) = delete t (threads s)
     /\ threads (CheckToBeDestroyed s) !! t = None)
  /\ toBeDestroyed (CheckToBeDestroyed s) = None
  /\ CheckToBeDestroyed (CheckToBeDestroyed s) = CheckToBeDestroyed s
  /\ (toBeDestroyed s = None -> CheckToBeDestroyed s = s)
  /\ (forall u, toBeDestroyed s <> Some u ->
        threads (CheckToBeDestroyed s) !! u = threads s !! u)
  /\ readyList (CheckToBeDestroyed s) = readyList s
  /\ sleepingList (CheckToBeDestroyed s) = sleepingList s
  /\ currentThread (CheckToBeDestroyed s) = currentThread s.
Proof.
  unfold CheckToBeDestroyed.
  destruct (toBeDestroyed s) as [t|] eqn:E; simpl.
  - split; [intros ? [= <-]; split; [done|apply lookup_delete_eq]|].
    repeat split; try done.
    intros u Hu. apply lookup_delete_ne. congruence.
  - rewrite E. split; [done|]. repeat split; done.
Qed.

Lemma CheckToBeDestroyed_only_slot_witness :
  let s := mkScheduler FCFS [4%nat] (Some 4%nat) [] 0 1%nat IntOff
             demo_threads in
  threads (CheckToBeDestroyed s) !! 4%nat = None
  /\ threads (CheckToBeDestroyed s) !! 3%nat = demo_threads !! 3%nat
  /\ readyList (CheckToBeDestroyed s) = [4%nat].
Proof.
  intros s.
  destruct (CheckToBeDestroyed_only_slot s) as (Hdel & _ & _ & _ & Hu & Hr & _).
  split; [apply (Hdel 4%nat eq_refl)|]. split; [|exact Hr].
  apply Hu. discriminate.
Defined.

(** X8: two dispatches with [finishing] set and no return from [SWITCH] in
    between: the second one fails, because the slot still holds the first
    finishing thread. *)
Theorem Run_finishing_twice
    (SWITCH : tid -> tid -> Scheduler -> result Scheduler)
    (s s1 : Scheduler) (next1 next2 : tid) :
  Run_before_SWITCH s next1 true = Ok s1 ->
  Run SWITCH s1 next2 true = AssertFailed.
Proof.
  intros H1. unfold Run, Run_before_SWITCH in *.
  destruct (IntOff_b s) eqn:Hoff; [|done]. simpl in H1.
  destruct (bool_decide (toBeDestroyed s = None)); [|done]. simpl in H1.
  destruct (CheckOverflow _ _); [|done..]. simpl in H1.
  injection H1 as <-. simpl.
  replace (IntOff_b _) with true by (symmetry; exact Hoff). done.
Qed.

Lemma Run_finishing_twice_witness :
  Run (fun _ _ s => Ok s)
      (mkScheduler FCFS [3%nat] (Some 1%nat) [] 0 2%nat IntOff
         (setStatus 2%nat RUNNING demo_threads))
      3%nat true = AssertFailed.
Proof.
  apply (Run_finishing_twice (fun _ _ s => Ok s)
           (mkScheduler FCFS [3%nat] None [] 0 1%nat IntOff demo_threads)
           _ 2%nat 3%nat).
  reflexivity.
Defined.

(** ** WakeUp at the edges *)

Lemma WakeUp_loop_none_expired (fuel i : nat) (woken : bool) (s : Scheduler) :
  Forall (fun e => ~ Expired (current s) e) (drop i (sleepingList s)) ->
  (length (sleepingList s) - i <= fuel)%nat ->
  WakeUp_loop fuel i woken s = Ok (woken, s).
Proof.
  revert i. induction fuel as [|fuel IH]; intros i Hall Hlen.
  - unfold WakeUp_loop. by rewrite lookup_ge_None_2 by lia.
  - simpl. destruct (sleepingList s !! i) as [it|] eqn:Hit; [|done].
    rewrite (drop_S _ _ _ Hit) in Hall. apply Forall_cons in Hall as [Hit' Hall].
    destruct (Z.ltb_spec it.2 (current s)) as [Hexp|Hexp]; [done|].
    apply IH; [done|lia].
Qed.

Lemma WakeUp_loop_IntOn (fuel i : nat) (woken : bool) (s : Scheduler) :
  level s <> IntOff ->
  Exists (Expired (current s)) (drop i (sleepingList s)) ->
  (length (sleepingList s) - i <= fuel)%nat ->
  WakeUp_loop fuel i woken s = AssertFailed.
Proof.
  intros Hon. revert i woken.
  induction fuel as [|fuel IH]; intros i woken Hex Hlen.
  - rewrite drop_ge in Hex by lia. by apply Exists_nil in Hex.
  - simpl. destruct (sleepingList s !! i) as [it|] eqn:Hit.
    + rewrite (drop_S _ _ _ Hit) in Hex.
      destruct (Z.ltb_spec it.2 (current s)) as [Hexp|Hexp].
      * unfold ReadyToRun. by rewrite IntOff_b_false.
      * apply Exists_cons in Hex as [Hex|Hex]; [unfold Expired in Hex; lia|].
        apply IH; [done|lia].
    + apply lookup_ge_None_1 in Hit. rewrite drop_ge in Hex by done.
      by apply Exists_nil in Hex.
Qed.

(** X9: when no sleeper has a wake tick below the new tick (in particular
    when nobody sleeps), [WakeUp] returns false and only moves the tick to
    its [int] successor, which is the tick plus one whenever the tick is
    below [INT_MAX]; this holds with interrupts on or off: [WakeUp] has no
    assertion of its own. *)
Theorem WakeUp_nothing_due (s : Scheduler) :
  Forall (fun e : thread_clk => int_add (current s) 1 <= e.2) (sleepingList s) ->
  WakeUp s = Ok (false, set_current (int_add (current s) 1) s)
  /\ (INT_MIN <= current s < INT_MAX ->
        WakeUp s = Ok (false, set_current (current s + 1) s)).
Proof.
  intros Hall.
  assert (WakeUp s = Ok (false, set_current (int_add (current s) 1) s)) as HW.
  { unfold WakeUp. apply WakeUp_loop_none_expired; [|simpl; lia].
    rewrite drop_0. simpl. eapply Forall_impl; [exact Hall|].
    intros e He. unfold Expired. simpl in *. lia. }
  split; [exact HW|]. intros Hrange. rewrite HW.
  by rewrite int_add_in_range by lia.
Qed.

Lemma WakeUp_nothing_due_witness :
  WakeUp (mkScheduler SJF [2%nat] None [(1%nat, 4); (3%nat, 1)] 0 0%nat IntOn
            demo_threads)
  = Ok (false,
        mkScheduler SJF [2%nat] None [(1%nat, 4); (3%nat, 1)] 1 0%nat IntOn
          demo_threads).
Proof.
  apply (WakeUp_nothing_due
           (mkScheduler SJF [2%nat] None [(1%nat, 4); (3%nat, 1)] 0 0%nat IntOn
              demo_threads)).
  - repeat (apply Forall_cons_2; [vm_compute; discriminate|]).
    apply Forall_nil_2.
  - unfold INT_MIN, INT_MAX. simpl. lia.
Defined.

(** X10: with interrupts enabled, [WakeUp] fails an assertion (the one of
    [ReadyToRun]) as soon as one sleeper has a wake tick below the new
    tick, the [int] successor of the old one. *)
Theorem WakeUp_IntOn_due (s : Scheduler) :
  level s <> IntOff ->
  Exists (fun e : thread_clk => e.2 < int_add (current s) 1) (sleepingList s) ->
  WakeUp s = AssertFailed.
Proof.
  intros Hon Hex. unfold WakeUp.
  apply WakeUp_loop_IntOn; [done| |simpl; lia].
  by rewrite drop_0.
Qed.

Lemma WakeUp_IntOn_due_witness :
  WakeUp (mkScheduler SJF [2%nat] None [(1%nat, 4); (3%nat, 0)] 0 0%nat IntOn
            demo_threads)
  = AssertFailed.
Proof.
  apply WakeUp_IntOn_due.
  - discriminate.
  - apply Exists_cons_tl, Exists_cons_hd. vm_compute. reflexivity.
Defined.

(** ** WakeUp loses and duplicates nothing *)

Lemma readyList_markReady_all_Permutation (ts : list tid) (s : Scheduler) :
  readyList (markReady_all ts s) ≡ₚ readyList s ++ ts.
Proof.
  revert s. induction ts as [|t ts IH]; intros s.
  - by rewrite app_nil_r.
  - rewrite markReady_all_cons, IH, readyList_markReady_Permutation.
    simpl. apply Permutation_middle.
Qed.

(** X11: with interrupts off, the threads on the ready list together with
    the sleeping threads are the same before and after [WakeUp], counted
    with repetitions: a sleeper is moved, never dropped or copied; the
    current thread, the destruction slot and the policy are unchanged. *)
Theorem WakeUp_conserves_threads (s : Scheduler) :
  level s = IntOff ->
  exists woken s', WakeUp s = Ok (woken, s')
    /\ readyList s' ++ (sleepingList s').*1
       ≡ₚ readyList s ++ (sleepingList s).*1
    /\ currentThread s' = currentThread s
    /\ toBeDestroyed s' = toBeDestroyed s
    /\ schedulerType s' = schedulerType s
    /\ level s' = IntOff.
Proof.
  intros Hoff. rewrite WakeUp_result by done.
  eexists _, _. split; [reflexivity|]. simpl.
  destruct (markReady_all_frame
              (filter (Expired (int_add (current s) 1)) (sleepingList s)).*1
              (set_current (int_add (current s) 1) s))
    as (Hl & _ & _ & Hc & Hd & Ht).
  simpl in *. rewrite Hl, Hc, Hd, Ht. split; [|done].
  rewrite readyList_markReady_all_Permutation. simpl.
  rewrite <- app_assoc, <- fmap_app. do 2 f_equiv.
  apply filter_app_complement.
Qed.

Lemma WakeUp_conserves_threads_witness :
  exists woken s', WakeUp wake_demo = Ok (woken, s')
    /\ readyList s' ++ (sleepingList s').*1
       ≡ₚ [4%nat; 1%nat; 2%nat; 3%nat].
Proof.
  destruct (WakeUp_conserves_threads wake_demo eq_refl)
    as (woken & s' & HW & Hp & _).
  exists woken, s'. split; [exact HW|exact Hp].
Defined.

(** ** Sleepers are never overdue *)

Lemma filter_iff_elem_of {A} (P Q : A -> Prop) `{!forall x, Decision (P x)}
    `{!forall x, Decision (Q x)} (l : list A) :
  (forall x, x ∈ l -> (P x <-> Q x)) -> filter P l = filter Q l.
Proof.
  induction l as [|a l IH]; intros HPQ; [done|].
  rewrite !filter_cons, IH by (intros x Hx; apply HPQ; by right).
  destruct (decide (P a)) as [Ha|Ha], (decide (Q a)) as [Hb|Hb]; try done.
  - exfalso. apply Hb, HPQ; [by left|done].
  - exfalso. apply Ha, HPQ; [by left|done].
Qed.

(** X12: with interrupts off, after every [WakeUp] no sleeper is overdue;
    [FallAsleep] with a duration that is not negative and a wake tick in
    the range of [int] keeps that; and when no sleeper is overdue and the
    tick is below [INT_MAX], [WakeUp] wakes exactly the sleepers whose wake
    tick is the tick before the call and keeps the others, in order. *)
Theorem no_overdue_kept (s : Scheduler) :
  level s = IntOff ->
  (forall t val, 0 <= val ->
     INT_MIN <= current s -> current s + val <= INT_MAX ->
     no_overdue s ->
     exists s1, FallAsleep s t val = Ok s1 /\ no_overdue s1)
  /\ (exists woken s', WakeUp s = Ok (woken, s')
        /\ no_overdue s'
        /\ (INT_MIN <= current s < INT_MAX -> no_overdue s ->
              sleepingList s'
              = filter (fun e : thread_clk => e.2 <> current s) (sleepingList s)
              /\ (woken = true
                  <-> exists e, e ∈ sleepingList s /\ e.2 = current s)
              /\ (forall t, t ∈ readyList s'
                    <-> t ∈ readyList s \/ (t, current s) ∈ sleepingList s))).
Proof.
  intros Hoff. split.
  - intros t val Hval Hlo Hhi Hno. rewrite FallAsleep_result by done.
    eexists. split; [reflexivity|]. unfold no_overdue in *. simpl.
    apply Forall_app. split; [done|].
    apply Forall_cons_2; [|apply Forall_nil_2].
    simpl. rewrite int_add_in_range by lia. lia.
  - destruct (WakeUp_step s Hoff)
      as (woken & s' & HW & _ & Hc & _ & Hs & Hr & _).
    exists woken, s'. split; [done|]. split.
    { unfold no_overdue. apply Forall_forall. intros e He.
      apply Hs in He as [_ He]. lia. }
    intros Hrange Hno. unfold no_overdue in Hno.
    pose proof (proj1 (Forall_forall _ _) Hno) as Hge.
    rewrite int_add_in_range in Hc by lia.
    rewrite WakeUp_result in HW by done. injection HW as Hw <-. simpl.
    rewrite int_add_in_range in * by lia.
    split; [|split].
    + apply filter_iff_elem_of. intros e Hin. specialize (Hge e Hin).
      unfold Expired. simpl in *. lia.
    + rewrite <- Hw, bool_decide_eq_true, Exists_exists. unfold Expired.
      split; intros (e & Hin & He); exists e; (split; [done|]);
        specialize (Hge e Hin); simpl in *; lia.
    + intros t. rewrite Hr, Hc. split.
      * intros [H|(w & Hin & Hw')]; [by left|]. right.
        specialize (Hge _ Hin). simpl in Hge.
        by replace (current s) with w by lia.
      * intros [H|Hin]; [by left|]. right. exists (current s).
        split; [done|lia].
Qed.

Lemma no_overdue_kept_witness :
  exists s1 woken s',
    FallAsleep (demo_state FCFS [2%nat]) 0%nat 0 = Ok s1
    /\ no_overdue s1
    /\ WakeUp s1 = Ok (woken, s')
    /\ no_overdue s'
    /\ (woken = true <-> exists e, e ∈ sleepingList s1 /\ e.2 = current s1).
Proof.
  destruct (no_overdue_kept (demo_state FCFS [2%nat]) eq_refl) as [HF _].
  destruct (HF 0%nat 0) as (s1 & HF1 & Hno1).
  - lia.
  - unfold INT_MIN. simpl. lia.
  - unfold INT_MAX. simpl. lia.
  - apply Forall_nil_2.
  - assert (level s1 = IntOff /\ current s1 = 0) as [Hoff1 Hc1].
    { vm_compute in HF1. injection HF1 as <-. split; reflexivity. }
    destruct (no_overdue_kept s1 Hoff1)
      as [_ (woken & s' & HW & Hno' & Hex)].
    destruct Hex as (_ & Hw & _); [|exact Hno1|].
    + rewrite Hc1. unfold INT_MIN, INT_MAX. lia.
    + exists s1, woken, s'. split; [exact HF1|]. split; [exact Hno1|].
      split; [exact HW|]. split; [exact Hno'|exact Hw].
Defined.

(** X13: a negative duration is accepted: with interrupts off and neither
    the wake tick nor the next tick out of the range of [int], a thread that
    is not ready and falls asleep with [val < 0] is put on the ready list by
    the very next call of [WakeUp]. *)
Theorem FallAsleep_negative (s : Scheduler) (t : tid) (val : Z) :
  level s = IntOff -> val < 0 ->
  INT_MIN <= current s + val -> current s < INT_MAX ->
  t ∉ readyList s ->
  exists s1, FallAsleep s t val = Ok s1 /\ moved_on_call s1 t 1.
Proof.
  intros Hoff Hval Hlo Hhi Hr.
  pose proof (FallAsleep_result s t val Hoff) as HF.
  eexists. split; [exact HF|].
  match type of HF with _ = Ok ?s1 =>
    destruct (WakeUp_step s1 Hoff) as (b & s' & HW & _ & Hc & _ & _ & Hr' & _)
  end.
  simpl in Hc. rewrite int_add_in_range in Hc by lia.
  unfold moved_on_call.
  eexists _, (b, s'). split; [reflexivity|]. split; [exact HW|].
  split; [exact Hr|]. simpl. apply Hr'. right.
  exists (current s + val). simpl. split; [|lia].
  apply elem_of_app. right. apply list_elem_of_singleton.
  by rewrite int_add_in_range by lia.
Qed.

Lemma FallAsleep_negative_witness :
  exists s1, FallAsleep (demo_state FCFS [2%nat]) 0%nat (-3) = Ok s1
             /\ moved_on_call s1 0%nat 1.
Proof.
  apply (FallAsleep_negative (demo_state FCFS [2%nat]) 0%nat (-3)).
  - reflexivity.
  - lia.
  - unfold INT_MIN. simpl. lia.
  - unfold INT_MAX. simpl. lia.
  - simpl. intros H. apply list_elem_of_singleton in H. discriminate H.
Defined.

(** ** needYield by keys *)

(** X15: [needYield] answers true exactly when the ready list has a head
    whose key under the policy (burst time for SJF, priority value for
    Priority, none for FCFS) is strictly smaller than the running thread's;
    equal keys never ask for a yield. *)
Theorem needYield_smaller_key (s : Scheduler) :
  needYield s = true
  <-> exists next l, readyList s = next :: l
        /\ policy_key (schedulerType s) (threads s) next
           < policy_key (schedulerType s) (threads s) (currentThread s).
Proof.
  unfold needYield, policy_key.
  destruct (readyList s) as [|next l]; simpl.
  - split; [done|]. by intros (? & ? & ? & _).
  - destruct (schedulerType s).
    + split; [done|]. intros (? & ? & _ & ?). lia.
    + rewrite gtb_0_true, SJFCompare_flip, SJFCompare_lt. split.
      * intros H. by exists next, l.
      * by intros (? & ? & [= <- <-] & ?).
    + rewrite gtb_0_true, PriorityCompare_flip, PriorityCompare_lt. split.
      * intros H. by exists next, l.
      * by intros (? & ? & [= <- <-] & ?).
Qed.

(** ** Every policy as a sorted insertion *)

Lemma getBurstTime_setStatus (t x : tid) (st : ThreadStatus) (ths : Threads) :
  getBurstTime (setStatus t st ths) x = getBurstTime ths x.
Proof.
  unfold getBurstTime, setStatus. rewrite lookup_alter.
  case_decide; [subst|done]. by destruct (ths !! x).
Qed.

Lemma policy_key_setStatus (ty : SchedulerType) (t x : tid)
    (st : ThreadStatus) (ths : Threads) :
  policy_key ty (setStatus t st ths) x = policy_key ty ths x.
Proof.
  destruct ty; simpl;
    [done|apply getBurstTime_setStatus|apply getPriority_setStatus].
Qed.

Lemma policy_compare_lt (ty : SchedulerType) (ths : Threads) (a b : tid) :
  policy_compare ty ths a b < 0 <-> policy_key ty ths a < policy_key ty ths b.
Proof.
  destruct ty; simpl; [lia|apply SJFCompare_lt|apply PriorityCompare_lt].
Qed.

Lemma policy_compare_key_ext (ty : SchedulerType) (ths1 ths2 : Threads)
    (a b : tid) :
  (forall x, policy_key ty ths1 x = policy_key ty ths2 x) ->
  policy_compare ty ths1 a b = policy_compare ty ths2 a b.
Proof.
  intros H. destruct ty; simpl in *; [done| |].
  - unfold SJFCompare. by rewrite !H.
  - unfold PriorityCompare. by rewrite !H.
Qed.

Lemma Insert_never_before {T} (x : T) (l : list T) :
  ListH.Insert (fun _ _ => 0) x l = l ++ [x].
Proof. induction l as [|y l IH]; simpl; [done|]. by rewrite IH. Qed.

Lemma readyList_Append_Insert (s : Scheduler) (t : tid) :
  readyList_Append s t
  = ListH.Insert (policy_compare (schedulerType s) (threads s)) t (readyList s).
Proof.
  unfold readyList_Append, policy_compare.
  destruct (schedulerType s); [|done..].
  unfold ListH.Append. symmetry. apply Insert_never_before.
Qed.

(** Every sequence of calls keeps the ready list in ascending order of the
    policy's key. *)
Lemma run_ops_policy_sorted (ths0 : Threads) (ops : list sched_op)
    (s : Scheduler) :
  level s = IntOff ->
  (forall x, policy_key (schedulerType s) (threads s) x
             = policy_key (schedulerType s) ths0 x) ->
  StronglySorted (key_le (policy_key (schedulerType s) ths0)) (readyList s) ->
  exists out s', run_ops s ops = Ok (out, s')
    /\ level s' = IntOff
    /\ schedulerType s' = schedulerType s
    /\ (forall x, policy_key (schedulerType s) (threads s') x
                  = policy_key (schedulerType s) ths0 x)
    /\ StronglySorted (key_le (policy_key (schedulerType s) ths0)) (readyList s').
Proof.
  revert s. induction ops as [|[t|] ops IH]; intros s Hoff Hkey Hs; simpl.
  - by exists [], s.
  - rewrite ReadyToRun_IntOff by done. simpl.
    destruct (IH (markReady t s)) as (out & s' & -> & H); try done.
    + intros x. simpl. by rewrite policy_key_setStatus.
    + unfold markReady. simpl. rewrite readyList_Append_Insert. simpl.
      rewrite (Insert_ext _ (policy_compare (schedulerType s) ths0)).
      * apply (Insert_sorted (policy_key (schedulerType s) ths0)); [|done].
        apply policy_compare_lt.
      * intros a b. apply policy_compare_key_ext. intros x.
        by rewrite policy_key_setStatus.
    + by exists out, s'.
  - rewrite FindNextToRun_result by done.
    destruct (readyList s) as [|t l] eqn:E; simpl.
    + destruct (IH s) as (out & s' & -> & H); try done.
      * by rewrite E.
      * by exists out, s'.
    + destruct (IH (set_readyList l s)) as (out & s' & -> & H); try done.
      * simpl. by apply StronglySorted_inv in Hs as [Hs _].
      * by exists (t :: out), s'.
Qed.

Lemma readyList_markReady_all_policy (ts : list tid) (s : Scheduler) :
  readyList (markReady_all ts s)
  = Insert_all (policy_compare (schedulerType s) (threads s)) (readyList s) ts.
Proof.
  revert s. induction ts as [|t ts IH]; intros s; [done|].
  rewrite markReady_all_cons, IH, Insert_all_cons.
  unfold markReady. simpl. rewrite readyList_Append_Insert. simpl.
  rewrite (Insert_ext _ (policy_compare (schedulerType s) (threads s))).
  - apply Insert_all_ext. intros a b. apply policy_compare_key_ext.
    intros x. apply policy_key_setStatus.
  - intros a b. apply policy_compare_key_ext. intros x.
    apply policy_key_setStatus.
Qed.

(** X14: under SJF, marking the threads [ts] ready on a new scheduler and
    then dispatching until the ready list is empty returns them in ascending
    order of their burst time, threads of equal burst time in the order
    they were marked ready.  The statement is proved for every policy with
    its key; for FCFS, whose key is constant, the order is [ts] itself. *)
Theorem policy_dispatch_order (ty : SchedulerType) (ths : Threads) (cur : tid)
    (ts : list tid) :
  exists out s',
    run_ops (Scheduler_new ty cur IntOff ths) (mark_then_drain ts) = Ok (out, s')
    /\ readyList s' = []
    /\ out ≡ₚ ts
    /\ StronglySorted (key_le (policy_key ty ths)) out
    /\ (forall p, filter (fun t => policy_key ty ths t = p) out
                  = filter (fun t => policy_key ty ths t = p) ts)
    /\ (ty = SJF ->
          StronglySorted (key_le (getBurstTime ths)) out
          /\ forall a b, a ∈ ts -> b ∈ ts ->
               getBurstTime ths a < getBurstTime ths b ->
               exists l1 l2 l3, out = l1 ++ a :: l2 ++ b :: l3)
    /\ (ty = FCFS -> out = ts).
Proof.
  rewrite run_mark_then_drain by done.
  rewrite readyList_markReady_all_policy. simpl.
  eexists _, _. split; [reflexivity|]. split; [done|].
  pose proof (policy_compare_lt ty ths) as Hlt.
  assert (StronglySorted (key_le (policy_key ty ths))
            (Insert_all (policy_compare ty ths) [] ts)) as Hsorted.
  { apply (Insert_all_sorted (policy_key ty ths)); [done|constructor]. }
  assert (Insert_all (policy_compare ty ths) [] ts ≡ₚ ts) as Hperm.
  { apply (Insert_all_Permutation (policy_compare ty ths) [] ts). }
  assert (forall p, filter (fun t => policy_key ty ths t = p)
                      (Insert_all (policy_compare ty ths) [] ts)
                    = filter (fun t => policy_key ty ths t = p) ts) as Hstable.
  { intros p.
    rewrite (Insert_all_filter_key (policy_key ty ths)); [done..|constructor]. }
  split; [done|]. split; [done|]. split; [done|]. split.
  - intros ->. split; [exact Hsorted|].
    intros a b Ha Hb Hab.
    apply (sorted_smaller_first (getBurstTime ths)); [exact Hsorted| | |done].
    + by rewrite Hperm.
    + by rewrite Hperm.
  - intros ->. specialize (Hstable 0). simpl in Hstable.
    rewrite !filter_all in Hstable by done. exact Hstable.
Qed.

Lemma policy_dispatch_order_witness :
  exists s',
    run_ops (Scheduler_new SJF 0%nat IntOff demo_threads)
      (mark_then_drain [1%nat; 2%nat; 3%nat; 4%nat])
    = Ok ([1%nat; 4%nat; 3%nat; 2%nat], s')
    /\ StronglySorted (key_le (getBurstTime demo_threads))
         [1%nat; 4%nat; 3%nat; 2%nat].
Proof.
  destruct (policy_dispatch_order SJF demo_threads 0%nat
              [1%nat; 2%nat; 3%nat; 4%nat])
    as (out & s' & Hrun & _ & _ & _ & _ & Hsjf & _).
  destruct (Hsjf eq_refl) as [Hs _].
  assert (out = [1%nat; 4%nat; 3%nat; 2%nat]) as ->.
  { vm_compute in Hrun. by injection Hrun as <- _. }
  exists s'. split; [exact Hrun|exact Hs].
Defined.

(** ** Dispatching the front of the ready list *)

Lemma Run_before_SWITCH_shape (s s1 : Scheduler) (nextThread : tid)
    (finishing : bool) :
  Run_before_SWITCH s nextThread finishing = Ok s1 ->
  readyList s1 = readyList s
  /\ currentThread s1 = nextThread
  /\ threads s1 = setStatus nextThread RUNNING (threads s)
  /\ schedulerType s1 = schedulerType s.
Proof.
  unfold Run_before_SWITCH.
  destruct (IntOff_b s); [|done]. simpl.
  destruct finishing; simpl.
  - destruct (bool_decide (toBeDestroyed s = None)); [|done]. simpl.
    destruct (CheckOverflow _ _); [|done..]. simpl. by intros [= <-].
  - destruct (CheckOverflow _ _); [|done..]. simpl. by intros [= <-].
Qed.

(** X16: starting from a new scheduler of any policy, after any sequence of
    [ReadyToRun] and [FindNextToRun] calls, the thread that [FindNextToRun]
    returns and [Run] then makes the current thread does not have to
    yield: [needYield] is false right after the dispatch. *)
Theorem no_yield_after_dispatch (ty : SchedulerType) (ths : Threads)
    (cur : tid) (ops : list sched_op) :
  exists out s',
    run_ops (Scheduler_new ty cur IntOff ths) ops = Ok (out, s')
    /\ forall t s'' s3 finishing,
         FindNextToRun s' = Ok (Some t, s'') ->
         Run_before_SWITCH s'' t finishing = Ok s3 ->
         needYield s3 = false.
Proof.
  destruct (run_ops_policy_sorted ths ops (Scheduler_new ty cur IntOff ths))
    as (out & s' & Hrun & Hoff & Hty & Hkey & Hs); try done; [constructor|].
  simpl in *. exists out, s'. split; [done|].
  intros t s'' s3 finishing HF HR.
  rewrite FindNextToRun_result in HF by done.
  destruct (readyList s') as [|t' l] eqn:E; [discriminate HF|].
  injection HF as -> <-.
  apply Run_before_SWITCH_shape in HR as (Hr3 & Hc3 & Ht3 & Hty3).
  simpl in *. apply not_true_is_false. rewrite needYield_smaller_key.
  intros (next & l' & Hl & Hlt).
  rewrite Hr3 in Hl. rewrite Hl in Hs. rewrite Hc3, Ht3, Hty3, Hty in Hlt.
  rewrite !policy_key_setStatus, !Hkey in Hlt.
  apply StronglySorted_inv in Hs as [_ Hall].
  apply Forall_cons in Hall as [Hle _]. unfold key_le in Hle. lia.
Qed.

Lemma no_yield_after_dispatch_witness :
  exists out s' s'' s3,
    run_ops (Scheduler_new SJF 0%nat IntOff demo_threads)
      [MarkReady 2%nat; MarkReady 3%nat; MarkReady 4%nat] = Ok (out, s')
    /\ FindNextToRun s' = Ok (Some 4%nat, s'')
    /\ Run_before_SWITCH s'' 4%nat false = Ok s3
    /\ needYield s3 = false.
Proof.
  destruct (no_yield_after_dispatch SJF demo_threads 0%nat
              [MarkReady 2%nat; MarkReady 3%nat; MarkReady 4%nat])
    as (out & s' & Hrun & Hny).
  vm_compute in Hrun. injection Hrun as <- <-.
  eexists _, _, _, _. split; [vm_compute; reflexivity|].
  split; [vm_compute; reflexivity|].
  assert (forall s'' s3,
            FindNextToRun
              (mkScheduler SJF [4%nat; 3%nat; 2%nat] None [] 0 0%nat IntOff
                 (setStatus 4%nat READY
                    (setStatus 3%nat READY (setStatus 2%nat READY demo_threads))))
            = Ok (Some 4%nat, s'') ->
            Run_before_SWITCH s'' 4%nat false = Ok s3 ->
            needYield s3 = false) as Hny'.
  { intros s'' s3 HF HR. eapply Hny; [|exact HR].
    rewrite <- HF. vm_compute. reflexivity. }
  split; [reflexivity|].
  eapply Hny'; reflexivity.
Defined.

(** ** The thread body *)

Lemma getBurstTime_setBurstTime (t : tid) (b : Z) (ths : Threads) :
  is_Some (ths !! t) -> getBurstTime (setBurstTime t b ths) t = b.
Proof.
  intros [th Hth]. unfold getBurstTime, setBurstTime.
  by rewrite lookup_alter_eq, Hth.
Qed.

Lemma getBurstTime_pos_is_Some (t : tid) (ths : Threads) :
  0 < getBurstTime ths t -> is_Some (ths !! t).
Proof.
  unfold getBurstTime. destruct (ths !! t); simpl; [eauto|lia].
Qed.

Section ThreadBodyFacts.

Variable OneTick : Scheduler -> result Scheduler.
Variable thread : tid.

(** The tick always comes back, and the handlers and threads that ran in
    between left the burst time of [thread] alone. *)
Hypothesis OneTick_returns : forall s, exists s', OneTick s = Ok s'.
Hypothesis OneTick_burst : forall s s',
  OneTick s = Ok s' ->
  getBurstTime (threads s') thread = getBurstTime (threads s) thread.

Lemma threadBody_loop_runs_down (fuel : nat) (s : Scheduler) :
  (Z.to_nat (getBurstTime (threads s) thread) <= fuel)%nat ->
  exists s', threadBody_loop OneTick fuel thread s = Ok s'
    /\ getBurstTime (threads s') thread
       = Z.min (getBurstTime (threads s) thread) 0.
Proof.
  revert s. induction fuel as [|fuel IH]; intros s Hfuel.
  - exists s. unfold threadBody_loop.
    destruct (Z.gtb_spec (getBurstTime (threads s) thread) 0); [lia|].
    split; [done|lia].
  - simpl. destruct (Z.gtb_spec (getBurstTime (threads s) thread) 0) as [Hpos|Hle].
    + set (s1 := set_threads _ s).
      destruct (OneTick_returns s1) as (s2 & H2). rewrite H2. simpl.
      assert (getBurstTime (threads s2) thread
              = getBurstTime (threads s) thread - 1) as Hb2.
      { rewrite (OneTick_burst _ _ H2). subst s1. simpl.
        apply getBurstTime_setBurstTime, getBurstTime_pos_is_Some. lia. }
      destruct (IH s2) as (s' & -> & Hb'); [lia|].
      exists s'. split; [done|]. lia.
    + exists s. split; [done|lia].
Qed.

End ThreadBodyFacts.

(** X17: if each [OneTick] returns and leaves the burst time of the running
    thread alone, [threadBody] returns as soon as the fuel covers the burst
    time, with the burst time run down to 0; a thread whose burst time is
    not positive is left as it is. *)
Theorem threadBody_runs_down (OneTick : Scheduler -> result Scheduler)
    (fuel : nat) (s : Scheduler) :
  (forall s0, exists s', OneTick s0 = Ok s') ->
  (forall s0 s', OneTick s0 = Ok s' ->
     getBurstTime (threads s') (currentThread s)
     = getBurstTime (threads s0) (currentThread s)) ->
  (Z.to_nat (getBurstTime (threads s) (currentThread s)) <= fuel)%nat ->
  exists s', threadBody OneTick fuel s = Ok s'
    /\ getBurstTime (threads s') (currentThread s)
       = Z.min (getBurstTime (threads s) (currentThread s)) 0
    /\ (getBurstTime (threads s) (currentThread s) <= 0 -> s' = s).
Proof.
  intros Hret Hburst Hfuel.
  destruct (threadBody_loop_runs_down OneTick (currentThread s) Hret Hburst
              fuel s Hfuel) as (s' & Hrun & Hb).
  exists s'. split; [exact Hrun|]. split; [exact Hb|].
  intros Hle. unfold threadBody in *.
  destruct fuel; simpl in Hrun;
    destruct (Z.gtb_spec (getBurstTime (threads s) (currentThread s)) 0);
    try lia; by injection Hrun.
Qed.

Lemma threadBody_runs_down_witness :
  exists s',
    threadBody tick_only 3
      (mkScheduler SJF [4%nat; 3%nat; 2%nat] None [] 0 1%nat IntOff demo_threads)
    = Ok s'
    /\ getBurstTime (threads s') 1%nat = 0
    /\ current s' = 3.
Proof.
  destruct (threadBody_runs_down tick_only 3
              (mkScheduler SJF [4%nat; 3%nat; 2%nat] None [] 0 1%nat IntOff
                 demo_threads))
    as (s' & Hrun & Hb & _).
  - intros s0. eexists. reflexivity.
  - intros s0 s' [= <-]. reflexivity.
  - vm_compute. lia.
  - exists s'. split; [exact Hrun|]. split; [exact Hb|].
    vm_compute in Hrun. by injection Hrun as <-.
Defined.

(** ** The status of a sleeper *)

Lemma threads_markReady_all (ts : list tid) (s : Scheduler) (u : tid) :
  threads (markReady_all ts s) !! u
  = if decide (u ∈ ts) then Thread_setStatus READY <$> threads s !! u
    else threads s !! u.
Proof.
  revert s. induction ts as [|t ts IH]; intros s.
  - by rewrite decide_False by apply not_elem_of_nil.
  - rewrite markReady_all_cons, IH. simpl. unfold setStatus.
    destruct (decide (u = t)) as [->|Hne].
    + rewrite lookup_alter_eq. rewrite (decide_True (P := t ∈ t :: ts)) by (by left).
      destruct (decide (t ∈ ts)); [|done].
      by destruct (threads s !! t).
    + rewrite lookup_alter_ne by done.
      destruct (decide (u ∈ ts)) as [Hin|Hnin].
      * by rewrite decide_True by (by right).
      * rewrite decide_False; [done|].
        intros [?|?]%elem_of_cons; done.
Qed.

(** The thread objects after one [WakeUp]: the woken threads are READY, the
    others untouched. *)
Lemma WakeUp_threads (s : Scheduler) :
  level s = IntOff ->
  exists woken s', WakeUp s = Ok (woken, s')
    /\ forall u,
         threads s' !! u
         = if decide (u ∈ (filter (Expired (int_add (current s) 1))
                             (sleepingList s)).*1)
           then Thread_setStatus READY <$> threads s !! u
           else threads s !! u.
Proof.
  intros Hoff. rewrite WakeUp_result by done.
  eexists _, _. split; [reflexivity|]. intros u. simpl.
  by rewrite threads_markReady_all.
Qed.

Lemma sleeper_entry_unique (s s1 : Scheduler) (t : tid) (d w : Z) :
  level s = IntOff -> t ∉ (sleepingList s).*1 ->
  INT_MIN <= current s + d <= INT_MAX ->
  FallAsleep s t d = Ok s1 ->
  (t, w) ∈ sleepingList s1 <-> w = current s + d.
Proof.
  intros Hoff Hs Hrange HF. rewrite FallAsleep_result in HF by done.
  rewrite int_add_in_range in HF by done.
  injection HF as <-. simpl. rewrite elem_of_app, list_elem_of_singleton.
  split.
  - intros [Hin|[= ->]]; [|done]. exfalso. apply Hs.
    apply list_elem_of_fmap. by exists (t, w).
  - intros ->. by right.
Qed.

(** While asleep the thread object is as [FallAsleep] left it. *)
Lemma sleeper_threads_asleep (s s1 : Scheduler) (t : tid) (d : Z) (k : nat) :
  level s = IntOff -> 0 <= d ->
  INT_MIN <= current s -> current s + d < INT_MAX ->
  t ∉ (sleepingList s).*1 ->
  FallAsleep s t d = Ok s1 ->
  (k <= Z.to_nat d)%nat ->
  exists sk, WakeUp_n k s1 = Ok sk
    /\ level sk = IntOff
    /\ current sk = current s + Z.of_nat k
    /\ ((t, current s + d) ∈ sleepingList sk)
    /\ (forall w, (t, w) ∈ sleepingList sk -> w = current s + d)
    /\ threads sk !! t = threads s1 !! t.
Proof.
  intros Hoff Hd Hlo Hhi Hs HF.
  assert (level s1 = IntOff /\ current s1 = current s) as [Hoff1 Hc1].
  { rewrite FallAsleep_result in HF by done. by injection HF as <-. }
  assert (INT_MIN <= current s + d <= INT_MAX) as Hrange by lia.
  induction k as [|k IH]; intros Hk.
  - exists s1. simpl. split; [done|]. split; [done|]. split; [lia|].
    split; [by apply (sleeper_entry_unique s s1 t d)|].
    split; [|done]. intros w. by apply (sleeper_entry_unique s s1 t d).
  - destruct IH as (sk & HWk & Hoffk & Hck & Hink & Huniq & Hthk); [lia|].
    rewrite WakeUp_n_snoc, HWk. simpl.
    destruct (WakeUp_step sk Hoffk)
      as (b & s' & HW & Hoff' & Hc' & _ & Hs' & _).
    destruct (WakeUp_threads sk Hoffk) as (b' & s'' & HW' & Hth').
    rewrite HW in HW'. injection HW' as <- <-.
    rewrite int_add_in_range in Hc', Hth' by lia.
    rewrite HW. simpl. exists s'. split; [done|]. split; [done|].
    split; [lia|]. split; [|split].
    + apply Hs'. split; [done|]. simpl. lia.
    + intros w Hw. apply Hs' in Hw as [Hw _]. by apply Huniq.
    + rewrite Hth', decide_False; [done|].
      intros ([t' w] & Ht' & Hin)%list_elem_of_fmap. simpl in Ht'. subst t'.
      apply list_elem_of_filter in Hin as [Hexp Hin].
      apply Huniq in Hin. unfold Expired in Hexp. simpl in Hexp. lia.
Qed.

(** X18: a thread with an object that falls asleep for [d >= 0] ticks with
    interrupts off, has no other entry on the sleeping list, and whose wake
    tick is below [INT_MAX], keeps its object untouched through the first
    [d] calls of [WakeUp] and has status READY after call [d + 1], with the
    name, burst time and priority it had before it fell asleep. *)
Theorem sleeper_status (s : Scheduler) (t : tid) (d : Z) (th : Thread) :
  level s = IntOff -> 0 <= d ->
  INT_MIN <= current s -> current s + d < INT_MAX ->
  t ∉ (sleepingList s).*1 ->
  threads s !! t = Some th ->
  exists s1, FallAsleep s t d = Ok s1
    /\ (forall k, (k <= Z.to_nat d)%nat ->
          exists sk, WakeUp_n k s1 = Ok sk
            /\ threads sk !! t = threads s1 !! t)
    /\ (exists sw, WakeUp_n (S (Z.to_nat d)) s1 = Ok sw
          /\ threads sw !! t = Some (Thread_setStatus READY th)).
Proof.
  intros Hoff Hd Hlo Hhi Hs Hth.
  pose proof (FallAsleep_result s t d Hoff) as HF.
  eexists. split; [exact HF|].
  pose proof (fun k => sleeper_threads_asleep s _ t d k Hoff Hd Hlo Hhi Hs HF)
    as Hk.
  split.
  - intros k Hle. destruct (Hk k Hle) as (sk & HWk & _ & _ & _ & _ & Hthk).
    exists sk. by split.
  - destruct (Hk (Z.to_nat d)) as (sk & HWk & Hoffk & Hck & Hink & _ & Hthk);
      [lia|].
    rewrite WakeUp_n_snoc, HWk. simpl.
    destruct (WakeUp_threads sk Hoffk) as (b & s' & HW & Hth').
    rewrite HW. simpl. exists s'. split; [done|].
    rewrite Hth', decide_True.
    + rewrite Hthk. simpl. unfold setStatus.
      by rewrite lookup_alter_eq, Hth.
    + apply list_elem_of_fmap. exists (t, current s + d). split; [done|].
      apply list_elem_of_filter. split; [|done].
      unfold Expired. simpl. rewrite int_add_in_range by lia. lia.
Qed.

Lemma sleeper_status_witness :
  exists s1 sw,
    FallAsleep (demo_state Priority [2%nat]) 0%nat 2 = Ok s1
    /\ WakeUp_n 3 s1 = Ok sw
    /\ threads sw !! 0%nat = Some (mkThread "main" READY 0 0 false).
Proof.
  destruct (sleeper_status (demo_state Priority [2%nat]) 0%nat 2 main_thread)
    as (s1 & HF & _ & (sw & HW & Hth)).
  - reflexivity.
  - lia.
  - unfold INT_MIN. simpl. lia.
  - unfold INT_MAX. simpl. lia.
  - simpl. apply not_elem_of_nil.
  - reflexivity.
  - exists s1, sw. split; [exact HF|]. split; [exact HW|exact Hth].
Defined.
